(** * Hybrid Waymo estimator: the estimation engine of [script.js]

    A shallow embedding of the Monte Carlo engine of [script.js]
    ([readInputs], [runMonteCarlo], the three samplers, [blendSamples],
    [summarize], [percentile], [rand], [randn]) and the properties of its
    specification.

    Numbers.  A JavaScript number is modelled as an extended real: a finite
    real, [+Infinity], [-Infinity] or [NaN].  The arithmetic follows IEEE 754
    on the non-finite values ([Infinity - Infinity], [0 * Infinity] and
    [0 / 0] are [NaN], comparisons with [NaN] are false) and is exact on the
    finite ones: rounding, overflow and the sign of zero are not modelled.

    Effects.  Arrays live in a store and are handled through references, so
    that [push], the in-place [sort] and the aliasing between the arrays a
    run returns and the arrays it summarizes are visible.  [Math.random] reads
    the next element of a sequence of draws.  The two re-draw loops of
    [randn] and the sampling loop of [runMonteCarlo] take fuel. *)

From stdpp Require Import base list strings.
From Stdlib Require Import Reals Lra Lia Sorted.

Local Open Scope R_scope.

(** ** Numbers *)

Inductive number : Type :=
| Fin (r : R)
| PInf
| NInf
| NaN.

(** Sign of a real, as a three-way comparison with zero. *)
Definition Rsign (r : R) : comparison :=
  if Rlt_dec r 0 then Lt else if Rlt_dec 0 r then Gt else Eq.

Definition Rltb (a b : R) : bool := if Rlt_dec a b then true else false.
Definition Rleb (a b : R) : bool := if Rle_dec a b then true else false.
Definition Reqb (a b : R) : bool := if Req_dec_T a b then true else false.

(** The infinity of the given sign; a zero sign gives [NaN]
    (as in [0 * Infinity]). *)
Definition signed_inf (c : comparison) : number :=
  match c with
  | Gt => PInf
  | Lt => NInf
  | Eq => NaN
  end.

Definition js_neg (a : number) : number :=
  match a with
  | Fin x => Fin (- x)
  | PInf => NInf
  | NInf => PInf
  | NaN => NaN
  end.

Definition js_add (a b : number) : number :=
  match a, b with
  | NaN, _ | _, NaN => NaN
  | Fin x, Fin y => Fin (x + y)
  | PInf, NInf | NInf, PInf => NaN
  | PInf, _ | _, PInf => PInf
  | NInf, _ | _, NInf => NInf
  end.

Definition js_sub (a b : number) : number := js_add a (js_neg b).

Definition js_mul (a b : number) : number :=
  match a, b with
  | NaN, _ | _, NaN => NaN
  | Fin x, Fin y => Fin (x * y)
  | Fin x, PInf | PInf, Fin x => signed_inf (Rsign x)
  | Fin x, NInf | NInf, Fin x => signed_inf (CompOpp (Rsign x))
  | PInf, PInf | NInf, NInf => PInf
  | PInf, NInf | NInf, PInf => NInf
  end.

(** Division.  A zero divisor is taken as [+0]. *)
Definition js_div (a b : number) : number :=
  match a, b with
  | NaN, _ | _, NaN => NaN
  | Fin x, Fin y =>
      if Req_dec_T y 0 then signed_inf (Rsign x) else Fin (x / y)
  | Fin _, (PInf | NInf) => Fin 0
  | PInf, Fin y => if Rlt_dec y 0 then NInf else PInf
  | NInf, Fin y => if Rlt_dec y 0 then PInf else NInf
  | (PInf | NInf), (PInf | NInf) => NaN
  end.

Definition js_lt (a b : number) : bool :=
  match a, b with
  | NaN, _ | _, NaN => false
  | Fin x, Fin y => Rltb x y
  | NInf, (Fin _ | PInf) => true
  | Fin _, PInf => true
  | _, _ => false
  end.

Definition js_le (a b : number) : bool :=
  match a, b with
  | NaN, _ | _, NaN => false
  | Fin x, Fin y => Rleb x y
  | NInf, _ => true
  | _, PInf => true
  | _, _ => false
  end.

Definition js_gt (a b : number) : bool := js_lt b a.

(** [a === b] on numbers. *)
Definition js_eq (a b : number) : bool :=
  match a, b with
  | Fin x, Fin y => Reqb x y
  | PInf, PInf | NInf, NInf => true
  | _, _ => false
  end.

(** [!a]: zero and [NaN] are the falsy numbers. *)
Definition js_not (a : number) : bool :=
  match a with
  | Fin x => Reqb x 0
  | NaN => true
  | _ => false
  end.

Declare Scope js_scope.
Delimit Scope js_scope with js.
Bind Scope js_scope with number.
Infix "+" := js_add : js_scope.
Infix "-" := js_sub : js_scope.
Infix "*" := js_mul : js_scope.
Infix "/" := js_div : js_scope.
Infix "<?" := js_lt (at level 70) : js_scope.
Infix "<=?" := js_le (at level 70) : js_scope.
Infix ">?" := js_gt (at level 70) : js_scope.
Infix "===" := js_eq (at level 70) : js_scope.

(** ** Values

    Besides numbers the engine meets [null] (the initial sensor estimate) and
    [undefined] (an array read out of range). *)

Inductive value : Type :=
| Null
| Undefined
| Num (n : number).

(** [Number.isFinite]: no coercion, only finite numbers pass. *)
Definition Number_isFinite (v : value) : bool :=
  match v with
  | Num (Fin _) => true
  | _ => false
  end.

Definition is_finite (n : number) : bool := Number_isFinite (Num n).

(** [ToNumber] on the values above. *)
Definition to_number (v : value) : number :=
  match v with
  | Null => Fin 0
  | Undefined => NaN
  | Num n => n
  end.

Definition Math_floor (a : number) : number :=
  match a with
  | Fin x => Fin (IZR (Zfloor x))
  | _ => a
  end.

Definition Math_ceil (a : number) : number :=
  match a with
  | Fin x => Fin (IZR (Zceil x))
  | _ => a
  end.

Definition Math_log (a : number) : number :=
  match a with
  | Fin x =>
      match Rsign x with
      | Lt => NaN
      | Eq => NInf
      | Gt => Fin (ln x)
      end
  | PInf => PInf
  | _ => NaN
  end.

Definition Math_sqrt (a : number) : number :=
  match a with
  | Fin x => if Rlt_dec x 0 then NaN else Fin (sqrt x)
  | PInf => PInf
  | _ => NaN
  end.

Definition Math_exp (a : number) : number :=
  match a with
  | Fin x => Fin (exp x)
  | PInf => PInf
  | NInf => Fin 0
  | NaN => NaN
  end.

Definition Math_cos (a : number) : number :=
  match a with
  | Fin x => Fin (cos x)
  | _ => NaN
  end.

Definition Math_PI : number := Fin PI.

(** ** Blender *)

Definition blendSamples (f t s sensorWeight : number) : number :=
  let ok := is_finite s in
  if negb ok || (sensorWeight === Fin 0)%js then
    (Fin 0.5 * f + Fin 0.5 * t)%js
  else
    let rest := ((Fin 1 - sensorWeight) / Fin 2)%js in
    (rest * f + rest * t + sensorWeight * s)%js.

(** ** Arrays and percentiles *)

Definition array_length (a : list number) : number := Fin (INR (length a)).

(** [a[i]] for a number [i]: the element for an integer index in range,
    [undefined] for any other index. *)
Definition array_get (a : list number) (i : number) : value :=
  match i with
  | Fin x =>
      if Reqb x (IZR (Zfloor x)) && Rleb 0 x then
        match a !! Z.to_nat (Zfloor x) with
        | Some v => Num v
        | None => Undefined
        end
      else Undefined
  | _ => Undefined
  end.

Definition percentile (a : list number) (p : number) : value :=
  let i := (p * (array_length a - Fin 1))%js in
  let lo := Math_floor i in
  let hi := Math_ceil i in
  if (lo === hi)%js then array_get a lo
  else
    Num (to_number (array_get a lo) * (hi - i)
         + to_number (array_get a hi) * (i - lo))%js.

(** [Array.prototype.sort] with a comparator [cmp]: [x] goes after [y] when
    [cmp x y > 0] and keeps its place before it otherwise.  The sort of the
    language is stable; a stable insertion sort stands for it. *)
Fixpoint sort_insert (cmp : number -> number -> number) (x : number)
    (l : list number) : list number :=
  match l with
  | [] => [x]
  | y :: l' =>
      if (cmp x y >? Fin 0)%js then y :: sort_insert cmp x l'
      else x :: y :: l'
  end.

Definition sort_by (cmp : number -> number -> number) (l : list number)
    : list number :=
  fold_right (sort_insert cmp) [] l.

(** ** The store, the random draws and the monad of the engine *)

(** A reference to an array: its position in the store. *)
Abbreviation ref := nat.

Record world : Type := World {
  arrays : list (list number);
  drawn : nat;
  lastSensorCitywideEstimate : value
}.

(** A computation reads and updates the world; [None] is a computation that
    ran out of fuel (or followed a reference to no array). *)
Definition M (A : Type) : Type := world -> option (A * world).

Definition mret {A} (a : A) : M A := fun w => Some (a, w).

Definition mbind {A B} (c : M A) (k : A -> M B) : M B :=
  fun w =>
    match c w with
    | Some (a, w') => k a w'
    | None => None
    end.

Definition mfail {A} : M A := fun _ => None.

Notation "x <- c ;; k" := (mbind c (fun x => k))
  (at level 100, c at next level, right associativity).
Notation "c ;;; k" := (mbind c (fun _ => k))
  (at level 100, right associativity).

(** The three ways the engine changes the world: a fresh array, an array
    overwritten, a random draw consumed. *)
Definition alloc (l : list number) (w : world) : world :=
  World (arrays w ++ [l]) (drawn w) (lastSensorCitywideEstimate w).

Definition store (r : ref) (l : list number) (w : world) : world :=
  World (<[r := l]> (arrays w)) (drawn w) (lastSensorCitywideEstimate w).

Definition advance (w : world) : world :=
  World (arrays w) (S (drawn w)) (lastSensorCitywideEstimate w).

(** [[]] and the other array literals: a fresh array. *)
Definition array_new (l : list number) : M ref :=
  fun w => Some (length (arrays w), alloc l w).

Definition array_read (r : ref) : M (list number) :=
  fun w =>
    match arrays w !! r with
    | Some l => Some (l, w)
    | None => None
    end.

Definition array_write (r : ref) (l : list number) : M unit :=
  fun w =>
    match arrays w !! r with
    | Some _ => Some (tt, store r l w)
    | None => None
    end.

(** [r.push(x)] *)
Definition array_push (r : ref) (x : number) : M unit :=
  l <- array_read r ;; array_write r (l ++ [x]).

(** [r.filter(f)]: a new array, [r] is left alone. *)
Definition array_filter (f : number -> bool) (r : ref) : M ref :=
  l <- array_read r ;; array_new (List.filter f l).

(** [[...r]]: a copy. *)
Definition array_spread (r : ref) : M ref :=
  l <- array_read r ;; array_new l.

(** [r.sort(cmp)]: sorts [r] in place and returns [r] itself. *)
Definition array_sort (cmp : number -> number -> number) (r : ref) : M ref :=
  l <- array_read r ;; array_write r (sort_by cmp l) ;;; mret r.

Definition array_reduce (f : number -> number -> number) (init : number)
    (r : ref) : M number :=
  l <- array_read r ;; mret (fold_left f l init).

Definition read_lastSensorCitywideEstimate : M value :=
  fun w => Some (lastSensorCitywideEstimate w, w).

(** ** Summarizer *)

Record stats : Type := Stats {
  mean : value;
  p5 : value;
  p95 : value
}.

Definition summarize (arr : ref) : M stats :=
  a <- array_filter is_finite arr ;;
  la <- array_read a ;;
  if (array_length la === Fin 0)%js then
    mret {| mean := Num NaN; p5 := Num NaN; p95 := Num NaN |}
  else
    copy <- array_spread a ;;
    sorted <- array_sort (fun a b => (a - b)%js) copy ;;
    total <- array_reduce (fun s x => (s + x)%js) (Fin 0) sorted ;;
    ls <- array_read sorted ;;
    let mean := (total / array_length ls)%js in
    let p5 := percentile ls (Fin 0.05) in
    let p95 := percentile ls (Fin 0.95) in
    mret {| mean := Num mean; p5 := p5; p95 := p95 |}.

(** The statistics [summarize] computes from the contents [a] of the
    filtered array: its three fields as a function of the finite values. *)
Definition statistics (a : list number) : stats :=
  if (array_length a === Fin 0)%js then
    {| mean := Num NaN; p5 := Num NaN; p95 := Num NaN |}
  else
    let ls := sort_by (fun a b => (a - b)%js) a in
    {| mean := Num (fold_left (fun s x => (s + x)%js) ls (Fin 0)
                    / array_length ls)%js;
       p5 := percentile ls (Fin 0.05);
       p95 := percentile ls (Fin 0.95) |}.

(** ** Parameters and their validation *)

Record params : Type := Params {
  fleetSize : number;
  sfMin : number;
  sfMax : number;
  utilMin : number;
  utilMax : number;
  tripsPerDay : number;
  tpcMin : number;
  tpcMax : number;
  samples : number;
  sensorWeight : number
}.

(** A call either throws an [Error] with a message or returns. *)
Inductive outcome (A : Type) : Type :=
| Throw (message : string)
| Return (a : A).
Arguments Throw {A} message.
Arguments Return {A} a.

(** [readInputs].  The argument [get] is its local function of the same name:
    the number read from the form field with the given id. *)
Definition readInputs (get : string -> number) : outcome params :=
  let fleetSize := get "fleetSize"%string in
  let sfMin := get "sfShareMin"%string in
  let sfMax := get "sfShareMax"%string in
  let utilMin := get "utilMin"%string in
  let utilMax := get "utilMax"%string in
  let tripsPerDay := get "tripsPerDay"%string in
  let tpcMin := get "tripsPerCarMin"%string in
  let tpcMax := get "tripsPerCarMax"%string in
  let samples := get "samples"%string in
  let sensorWeight := get "sensorWeight"%string in
  if (fleetSize <=? Fin 0)%js then Throw "Fleet size must be > 0."%string
  else if (sfMin <? Fin 0)%js || (sfMax >? Fin 100)%js || (sfMin >? sfMax)%js
  then Throw "SF share % invalid."%string
  else if (utilMin <? Fin 0)%js || (utilMax >? Fin 100)%js
          || (utilMin >? utilMax)%js
  then Throw "Utilization % invalid."%string
  else if (tpcMin <=? Fin 0)%js || (tpcMax <? tpcMin)%js
  then Throw "Trips/car invalid."%string
  else if (samples <? Fin 1000)%js
  then Throw "Samples must be ≥ 1000."%string
  else if (sensorWeight <? Fin 0)%js || (sensorWeight >? Fin 1)%js
  then Throw "Sensor weight must be 0–1."%string
  else
    Return {|
      fleetSize := fleetSize;
      sfMin := (sfMin / Fin 100)%js;
      sfMax := (sfMax / Fin 100)%js;
      utilMin := (utilMin / Fin 100)%js;
      utilMax := (utilMax / Fin 100)%js;
      tripsPerDay := tripsPerDay;
      tpcMin := tpcMin;
      tpcMax := tpcMax;
      samples := samples;
      sensorWeight := sensorWeight
    |}.

(** ** Samplers and the Monte Carlo engine *)

Record results : Type := Results {
  fleetSamples : ref;
  tripSamples : ref;
  sensorSamples : ref;
  blendedSamples : ref;
  fleetStats : stats;
  tripStats : stats;
  sensorStats : stats;
  blendedStats : stats
}.

Section Engine.

(** The successive results of [Math.random]. *)
Variable random_seq : nat -> R.

Definition Math_random : M number :=
  fun w =>
    Some (Fin (random_seq (drawn w)), advance w).

Definition rand (min max : number) : M number :=
  u <- Math_random ;; mret (min + u * (max - min))%js.

(** [while (!u) u = Math.random();] *)
Fixpoint redraw (fuel : nat) (u : number) : M number :=
  if js_not u then
    match fuel with
    | O => mfail
    | S fuel' => u' <- Math_random ;; redraw fuel' u'
    end
  else mret u.

Definition randn (fuel : nat) : M number :=
  u1 <- redraw fuel (Fin 0) ;;
  u2 <- redraw fuel (Fin 0) ;;
  mret (Math_sqrt (Fin (-2) * Math_log u1)
        * Math_cos (Fin 2 * Math_PI * u2))%js.

Definition sampleFleet (p : params) : M number :=
  sfShare <- rand (sfMin p) (sfMax p) ;;
  util <- rand (utilMin p) (utilMax p) ;;
  mret (fleetSize p * sfShare * util)%js.

Definition sampleTrip (p : params) : M number :=
  if (tripsPerDay p <=? Fin 0)%js then mret (Fin 0)
  else
    tripsPerCar <- rand (tpcMin p) (tpcMax p) ;;
    mret (tripsPerDay p / tripsPerCar)%js.

Definition sampleSensor (fuel : nat) (point : value) : M number :=
  if negb (Number_isFinite point) || (to_number point <=? Fin 0)%js
  then mret NaN
  else
    let mean := to_number point in
    let sd := (to_number point * Fin 0.3)%js in
    let vr := (sd * sd / (mean * mean))%js in
    let sigma2 := Math_log (Fin 1 + vr)%js in
    let sigma := Math_sqrt sigma2 in
    let mu := (Math_log mean - sigma2 / Fin 2)%js in
    z <- randn fuel ;;
    mret (Math_exp (mu + sigma * z)%js).

(** [for (let i = ...; i < p.samples; i++) { ... }], from the current [i]. *)
Fixpoint sampling_loop (redraws : nat) (p : params) (sensorPoint : value)
    (fleet trip sensor blend : ref) (fuel : nat) (i : number) : M unit :=
  if (i <? samples p)%js then
    match fuel with
    | O => mfail
    | S fuel' =>
        f <- sampleFleet p ;;
        t <- sampleTrip p ;;
        s <- sampleSensor redraws sensorPoint ;;
        let b := blendSamples f t s (sensorWeight p) in
        array_push fleet f ;;;
        array_push trip t ;;;
        array_push sensor s ;;;
        array_push blend b ;;;
        sampling_loop redraws p sensorPoint fleet trip sensor blend fuel'
          (i + Fin 1)%js
    end
  else mret tt.

(** Every loop of a run may take up to [fuel] iterations. *)
Definition runMonteCarlo (fuel : nat) (p : params) : M results :=
  fleet <- array_new [] ;;
  trip <- array_new [] ;;
  sensor <- array_new [] ;;
  blend <- array_new [] ;;
  sensorPoint <- read_lastSensorCitywideEstimate ;;
  sampling_loop fuel p sensorPoint fleet trip sensor blend fuel (Fin 0) ;;;
  fleetStats <- summarize fleet ;;
  tripStats <- summarize trip ;;
  sensorStats <- summarize sensor ;;
  blendedStats <- summarize blend ;;
  mret {|
    fleetSamples := fleet;
    tripSamples := trip;
    sensorSamples := sensor;
    blendedSamples := blend;
    fleetStats := fleetStats;
    tripStats := tripStats;
    sensorStats := sensorStats;
    blendedStats := blendedStats
  |}.

(** [handleFormSubmit], without the rendering of the results: the status
    message it leaves and the results it hands to the renderers. *)
Definition handleFormSubmit (fuel : nat) (get : string -> number)
    : M (string * option results) :=
  match readInputs get with
  | Throw message => mret (("Error: " +:+ message)%string, None)
  | Return p =>
      r <- runMonteCarlo fuel p ;;
      mret ("Simulation complete."%string, Some r)
  end.

End Engine.

(** ** The estimator of the specification

    The linear-interpolation percentile as the specification words it, on
    real numbers: [idx = p*(m-1)], [lo = floor idx], [hi = ceil idx], and
    the result is [a[lo]] when [lo = hi], else
    [a[lo]*(hi - idx) + a[hi]*(idx - lo)]. *)
Definition interpolated_percentile (a : list R) (p : R) : R :=
  let m := length a in
  let idx := p * (INR m - 1) in
  let lo := Zfloor idx in
  let hi := Zceil idx in
  if Z.eqb lo hi then nth (Z.to_nat lo) a 0
  else nth (Z.to_nat lo) a 0 * (IZR hi - idx)
       + nth (Z.to_nat hi) a 0 * (idx - IZR lo).

(** ** Forms

    The conditions under which [readInputs] rejects the fields of a form,
    in the order of its checks. *)
Definition rejected (get : string -> number) : Prop :=
  (get "fleetSize" <=? Fin 0)%js = true \/
  ((get "sfShareMin" <? Fin 0)%js = true \/
   (get "sfShareMax" >? Fin 100)%js = true \/
   (get "sfShareMin" >? get "sfShareMax")%js = true) \/
  ((get "utilMin" <? Fin 0)%js = true \/
   (get "utilMax" >? Fin 100)%js = true \/
   (get "utilMin" >? get "utilMax")%js = true) \/
  ((get "tripsPerCarMin" <=? Fin 0)%js = true \/
   (get "tripsPerCarMax" <? get "tripsPerCarMin")%js = true) \/
  (get "samples" <? Fin 1000)%js = true \/
  ((get "sensorWeight" <? Fin 0)%js = true \/
   (get "sensorWeight" >? Fin 1)%js = true).

(** A form filled with the values of the end-to-end scenario of the
    specification (shares and utilization in percent), except for the
    number of trips per day. *)
Definition scenario_form (trips : number) (id : string) : number :=
  if String.eqb id "fleetSize" then Fin 1500
  else if String.eqb id "sfShareMin" then Fin 10
  else if String.eqb id "sfShareMax" then Fin 10
  else if String.eqb id "utilMin" then Fin 50
  else if String.eqb id "utilMax" then Fin 50
  else if String.eqb id "tripsPerDay" then trips
  else if String.eqb id "tripsPerCarMin" then Fin 10
  else if String.eqb id "tripsPerCarMax" then Fin 10
  else if String.eqb id "samples" then Fin 5000
  else if String.eqb id "sensorWeight" then Fin 0
  else NaN.

(** ** Relations between worlds *)

(** [frame w w']: every array of [w] is in [w'] with the same contents, and
    neither the position in the random draws nor the sensor estimate moved. *)
Definition frame (w w' : world) : Prop :=
  (forall r l, arrays w !! r = Some l -> arrays w' !! r = Some l) /\
  drawn w' = drawn w /\
  lastSensorCitywideEstimate w' = lastSensorCitywideEstimate w.

(** [draws w w']: from [w] to [w'] only random draws were consumed. *)
Definition draws (w w' : world) : Prop :=
  arrays w' = arrays w /\
  lastSensorCitywideEstimate w' = lastSensorCitywideEstimate w /\
  (drawn w <= drawn w')%nat.

(** ** The assumptions of the specification *)

(** A sequence of results of [Math.random]: every draw lies in [0,1), and
    non-zero draws keep occurring (the re-draw loops of [randn] wait for
    one). *)
Definition random_source (random_seq : nat -> R) : Prop :=
  (forall n, 0 <= random_seq n < 1) /\
  (forall n, exists m, (n <= m)%nat /\ random_seq m <> 0).

(** A sensor point that is a finite positive real. *)
Definition finite_positive (point : value) : Prop :=
  exists x, point = Num (Fin x) /\ 0 < x.

(** The constraints of the data model on the parameters of a run: a positive
    fleet size, share and utilization ranges within [0,1], a non-negative
    number of trips per day, a positive trips-per-car range, an integer
    number of samples of at least 1000 and a sensor weight in [0,1]. *)
Record valid_params (p : params) : Prop := {
  valid_fleetSize : exists x, fleetSize p = Fin x /\ 0 < x;
  valid_sfShare :
    exists lo hi, sfMin p = Fin lo /\ sfMax p = Fin hi /\ 0 <= lo <= hi /\ hi <= 1;
  valid_util :
    exists lo hi,
      utilMin p = Fin lo /\ utilMax p = Fin hi /\ 0 <= lo <= hi /\ hi <= 1;
  valid_tripsPerDay : exists x, tripsPerDay p = Fin x /\ 0 <= x;
  valid_tpc :
    exists lo hi, tpcMin p = Fin lo /\ tpcMax p = Fin hi /\ 0 < lo <= hi;
  valid_samples : exists k : nat, samples p = Fin (INR k) /\ (1000 <= k)%nat;
  valid_sensorWeight : exists x, sensorWeight p = Fin x /\ 0 <= x <= 1
}.

(** ** Forms and iteration counts *)

(** The ids of the form fields [readInputs] reads. *)
Definition form_fields : list string :=
  ["fleetSize"; "sfShareMin"; "sfShareMax"; "utilMin"; "utilMax";
   "tripsPerDay"; "tripsPerCarMin"; "tripsPerCarMax"; "samples";
   "sensorWeight"]%string.

(** The form [get] with the field [id] replaced by [v]. *)
Definition with_field (get : string -> number) (id : string) (v : number)
    : string -> number :=
  fun i => if String.eqb i id then v else get i.

(** The number of iterations of [for (let i = 0; i < samples; i++)]: the
    least natural number that is not below [samples]; none for [Infinity]. *)
Definition iterations (samples : number) : option nat :=
  match samples with
  | Fin x => Some (Z.to_nat (Zceil x))
  | PInf => None
  | NInf | NaN => Some 0%nat
  end.

(** ** Samples of one iteration

    A triple (fleet, trip, sensor) that the three samplers return, one after
    the other, from some position in the random draws. *)
Definition sampled (rs : nat -> R) (p : params) (point : value)
    (x : number * number * number) : Prop :=
  exists (w w1 w2 w3 : world) (fuel : nat),
    sampleFleet rs p w = Some (x.1.1, w1) /\
    sampleTrip rs p w1 = Some (x.1.2, w2) /\
    sampleSensor rs fuel point w2 = Some (x.2, w3).

(** The blend of a triple of samples. *)
Definition blend_of (p : params) (x : number * number * number) : number :=
  blendSamples x.1.1 x.1.2 x.2 (sensorWeight p).

(** ** Finite values

    The finite elements of an array, in order, as real numbers. *)
Fixpoint finite_values (l : list number) : list R :=
  match l with
  | [] => []
  | Fin x :: l' => x :: finite_values l'
  | _ :: l' => finite_values l'
  end.

(** The sum of a list of reals. *)
Definition Rsum (l : list R) : R := fold_right Rplus 0 l.

(** ** Histogram

    [drawHistogram] on the contents of its argument.  The chart library is
    outside the program: what is modelled is the configuration handed to it,
    the labels as the numbers that [toFixed(0)] then formats and the data of
    the one dataset. *)

(** [Math.min(a, b)] and [Math.max(a, b)]. *)
Definition Math_min2 (a b : number) : number :=
  match a, b with
  | NaN, _ | _, NaN => NaN
  | _, _ => if (b <? a)%js then b else a
  end.

Definition Math_max2 (a b : number) : number :=
  match a, b with
  | NaN, _ | _, NaN => NaN
  | _, _ => if (a <? b)%js then b else a
  end.

(** [Math.min(...l)] and [Math.max(...l)]. *)
Definition Math_min (l : list number) : number := fold_right Math_min2 PInf l.
Definition Math_max (l : list number) : number := fold_right Math_max2 NInf l.








(** ** Display of the statistics

    [setTxt] and [setRange] on the value they are given; what is modelled is
    the content they give to the element, before it is turned into text. *)







(** ** The detector

    [detectWaymoHeuristic] on the height [h] of its canvas and the pixel
    array [data] the canvas returns for the scaled image (four numbers per
    pixel, 320 pixels per row).  The loops over the rows from
    [floor(h * 0.4)] and over the 320 columns are lists of natural numbers,
    and the counter [white] is a natural number. *)

(** [data[i]] as a number: [NaN] beyond the array. *)
Definition channel (data : list number) (i : nat) : number :=
  to_number (match data !! i with
             | Some v => Num v
             | None => Undefined
             end).

Definition is_white (data : list number) (y x : nat) : bool :=
  let i := ((y * 320 + x) * 4)%nat in
  let r := channel data i in
  let g := channel data (i + 1) in
  let b := channel data (i + 2) in
  let bright := ((r + g + b) / Fin 3 >? Fin 180)%js in
  let lowSat := (Math_max [r; g; b] - Math_min [r; g; b] <? Fin 40)%js in
  bright && lowSat.

Definition first_row (h : nat) : nat := Z.to_nat (Zfloor (INR h * 0.4)).

Definition white_in_row (data : list number) (y : nat) : nat :=
  length (List.filter (is_white data y) (seq 0 320)).

Definition white_pixels (h : nat) (data : list number) : nat :=
  sum_list (map (white_in_row data) (seq (first_row h) (h - first_row h))).

Definition detectWaymoHeuristic (h : nat) (data : list number) : number :=
  let white := Fin (INR (white_pixels h data)) in
  if (white <? Fin 200)%js then Fin 0
  else
    let cars := (white / Fin 800)%js in
    if (cars <? Fin 0.5)%js then Fin 0
    else if (cars <? Fin 1.5)%js then Fin 1
    else Fin 2.

(** ** Camera sampling

    [sampleAllCameras] on the coverage fraction read from the page and on
    what [await sampleSingleCamera(cam)] gives for each camera, in order:
    the count of the detector, or nothing when the promise is rejected.  It
    returns what it assigns to [lastObservedDetections] and
    [lastObservedCameras] and stores the estimate in the world. *)

Definition set_estimate (v : value) (w : world) : world :=
  World (arrays w) (drawn w) v.

Inductive sampling : Type :=
| CoverageInvalid
| NoUsableImages
| Sampled (detections cameras citywide : number).

(** [for (const cam of cameras) { try { total += count; used++; } ... }] *)
Fixpoint tally (outcomes : list (option number)) (total used : number)
    : number * number :=
  match outcomes with
  | [] => (total, used)
  | Some count :: rest => tally rest (total + count)%js (used + Fin 1)%js
  | None :: rest => tally rest total used
  end.

Definition sampleAllCameras (coverage : number)
    (outcomes : list (option number)) : M sampling :=
  if js_not coverage || (coverage <=? Fin 0)%js || (coverage >? Fin 1)%js
  then mret CoverageInvalid
  else
    let (total, used) := tally outcomes (Fin 0) (Fin 0) in
    if (used === Fin 0)%js then
      fun w => Some (NoUsableImages, set_estimate Null w)
    else
      let citywide := (total / coverage)%js in
      fun w => Some (Sampled total used citywide,
                     set_estimate (Num citywide) w).


(** The detections and the usable cameras among the counts. *)
Fixpoint detections (counts : list (option nat)) : nat :=
  match counts with
  | [] => 0
  | Some n :: rest => n + detections rest
  | None :: rest => detections rest
  end.


(** ** Basic facts about the number model *)

Lemma Rltb_true a b : Rltb a b = true <-> a < b.
Proof. unfold Rltb. destruct (Rlt_dec a b); split; intros; try lra; congruence. Qed.

Lemma Rleb_true a b : Rleb a b = true <-> a <= b.
Proof. unfold Rleb. destruct (Rle_dec a b); split; intros; try lra; congruence. Qed.

Lemma Reqb_true a b : Reqb a b = true <-> a = b.
Proof. unfold Reqb. destruct (Req_dec_T a b); split; intros; congruence. Qed.

Lemma Rltb_false a b : Rltb a b = false <-> b <= a.
Proof. unfold Rltb. destruct (Rlt_dec a b); split; intros; try lra; congruence. Qed.

Lemma Rleb_false a b : Rleb a b = false <-> b < a.
Proof. unfold Rleb. destruct (Rle_dec a b); split; intros; try lra; congruence. Qed.

Lemma Reqb_false a b : Reqb a b = false <-> a <> b.
Proof. unfold Reqb. destruct (Req_dec_T a b); split; intros; congruence. Qed.


Lemma js_eq_zero w : (w === Fin 0)%js = true <-> w = Fin 0.
Proof.
  destruct w; simpl; split; intros H; try discriminate.
  - apply Reqb_true in H. now subst.
  - inversion H. now apply Reqb_true.
Qed.

Lemma js_div_Fin x y : y <> 0 -> (Fin x / Fin y)%js = Fin (x / y).
Proof. intros Hy. simpl. destruct (Req_dec_T y 0); [contradiction | reflexivity]. Qed.

(** Evaluation of the arithmetic on constructors, leaving the reals alone. *)
Ltac js_simpl :=
  cbn [js_add js_sub js_mul js_neg js_eq js_lt js_le js_not is_finite
       Number_isFinite to_number negb orb andb] in *.

(** * Properties *)

(** C1: when the sensor sample is not finite or [sensorWeight] is [0],
    [blendSamples] returns [0.5*f + 0.5*t]; otherwise it returns
    [rest*f + rest*t + sensorWeight*s] with [rest = (1 - sensorWeight)/2].
    For a weight [w] in (0,1] the three coefficients [rest], [rest] and [w]
    sum to 1, and on finite samples the blend is the real number
    [(1-w)/2*f + (1-w)/2*t + w*s]. *)
Theorem blendSamples_spec :
  (forall f t s w : number,
      is_finite s = false \/ w = Fin 0 ->
      blendSamples f t s w = (Fin 0.5 * f + Fin 0.5 * t)%js) /\
  (forall f t s w : number,
      is_finite s = true -> w <> Fin 0 ->
      blendSamples f t s w =
        (((Fin 1 - w) / Fin 2) * f + ((Fin 1 - w) / Fin 2) * t + w * s)%js) /\
  (forall w : R,
      0 < w <= 1 ->
      let rest := ((Fin 1 - Fin w) / Fin 2)%js in
      (rest + rest + Fin w)%js = Fin 1 /\
      forall f t s : R,
        blendSamples (Fin f) (Fin t) (Fin s) (Fin w) =
          Fin ((1 - w) / 2 * f + (1 - w) / 2 * t + w * s)).
Proof.
  split; [| split].
  - intros f t s w [Hs | Hw]; unfold blendSamples.
    + now rewrite Hs.
    + subst w. replace (Fin 0 === Fin 0)%js with true.
      * now rewrite orb_true_r.
      * symmetry. now apply js_eq_zero.
  - intros f t s w Hs Hw. unfold blendSamples. rewrite Hs. simpl negb.
    destruct (w === Fin 0)%js eqn:E; [| reflexivity].
    apply js_eq_zero in E. contradiction.
  - intros w Hw rest. subst rest. split.
    + js_simpl. rewrite js_div_Fin by lra. js_simpl. f_equal; lra.
    + intros f t s. unfold blendSamples. js_simpl.
      replace (Reqb w 0) with false by (symmetry; apply Reqb_false; lra).
      rewrite js_div_Fin by lra. js_simpl. f_equal; lra.
Qed.

Lemma blendSamples_spec_witness :
  (is_finite NaN = false \/ Fin 0.25 = Fin 0) /\
  blendSamples (Fin 3) (Fin 5) NaN (Fin 0.25) = (Fin 0.5 * Fin 3 + Fin 0.5 * Fin 5)%js.
Proof.
  split; [left; reflexivity |].
  apply (proj1 blendSamples_spec). left. reflexivity.
Defined.


(** Outside the reals the coefficient 0 does not erase a sample: with an
    infinite fleet sample the blend of weight 1 is [NaN]. *)
Lemma blendSamples_infinite_fleet (t s : R) :
  blendSamples PInf (Fin t) (Fin s) (Fin 1) = NaN.
Proof.
  unfold blendSamples. js_simpl.
  replace (Reqb 1 0) with false by (symmetry; apply Reqb_false; lra).
  rewrite js_div_Fin by lra. cbn [orb js_mul]. unfold Rsign.
  destruct (Rlt_dec ((1 + - (1)) / 2) 0) as [H | _]; [lra |].
  destruct (Rlt_dec 0 ((1 + - (1)) / 2)) as [H | _]; [lra |].
  reflexivity.
Qed.

(** ** Percentiles *)

Lemma lookup_map_Fin (a : list R) (n : nat) :
  (n < length a)%nat -> map Fin a !! n = Some (Fin (nth n a 0)).
Proof.
  revert n. induction a as [| x a IH]; intros n Hn; simpl in *; [lia |].
  destruct n as [| n]; [reflexivity |]. apply IH. lia.
Qed.

Lemma array_get_index (a : list number) (z : Z) :
  (0 <= z)%Z ->
  array_get a (Fin (IZR z)) =
    match a !! Z.to_nat z with
    | Some v => Num v
    | None => Undefined
    end.
Proof.
  intros Hz. unfold array_get. rewrite ZfloorZ.
  replace (Reqb (IZR z) (IZR z)) with true by (symmetry; now apply Reqb_true).
  replace (Rleb 0 (IZR z)) with true; [reflexivity |].
  symmetry. apply Rleb_true. now apply IZR_le.
Qed.

Lemma js_eq_IZR (x y : Z) : (Fin (IZR x) === Fin (IZR y))%js = Z.eqb x y.
Proof.
  simpl. destruct (Z.eqb_spec x y) as [-> | Hne].
  - now apply Reqb_true.
  - apply Reqb_false. intros H. now apply eq_IZR in H.
Qed.

(** The index [p * (m - 1)] and its floor and ceiling stay within the array. *)
Lemma percentile_index_bounds (m : nat) (p : R) :
  (0 < m)%nat -> 0 <= p <= 1 ->
  let idx := p * (INR m - 1) in
  (0 <= Zfloor idx <= Zceil idx)%Z /\ (Z.to_nat (Zceil idx) < m)%nat.
Proof.
  intros Hm Hp idx.
  assert (Hm1 : 1 <= INR m) by (replace 1 with (INR 1) by reflexivity; apply le_INR; lia).
  assert (Hidx : 0 <= idx <= INR m - 1) by (unfold idx; split; nra).
  assert (Hlo : (0 <= Zfloor idx)%Z) by (apply Zfloor_lub; simpl; lra).
  assert (Hle : (Zfloor idx <= Zceil idx)%Z).
  { apply le_IZR. pose proof (Zfloor_ceil_bound idx). lra. }
  assert (Hhi : (Zceil idx <= Z.of_nat m - 1)%Z).
  { replace (Z.of_nat m - 1)%Z with (Zceil (IZR (Z.of_nat m - 1))).
    - apply Zceil_le. rewrite minus_IZR, <- INR_IZR_INZ. lra.
    - apply Zceil_eq. lra. }
  split; [lia | lia].
Qed.

Lemma percentile_refines (a : list R) (p : R) :
  a <> [] -> 0 <= p <= 1 ->
  percentile (map Fin a) (Fin p) = Num (Fin (interpolated_percentile a p)).
Proof.
  intros Ha Hp.
  assert (Hm : (0 < length a)%nat) by (destruct a; [congruence | simpl; lia]).
  destruct (percentile_index_bounds (length a) p Hm Hp) as [Hb Hhi].
  unfold percentile, interpolated_percentile, array_length.
  rewrite length_map. js_simpl. unfold Math_floor, Math_ceil.
  replace (INR (length a) + - (1)) with (INR (length a) - 1) by lra.
  set (idx := p * (INR (length a) - 1)) in *.
  rewrite js_eq_IZR.
  rewrite !array_get_index by lia.
  rewrite !lookup_map_Fin by lia.
  destruct (Z.eqb (Zfloor idx) (Zceil idx)); [reflexivity |].
  js_simpl. do 2 f_equal; lra.
Qed.

(** C3: [percentile] is the linear-interpolation estimator of the
    specification on every non-empty array of reals (sorted or not) and
    every fraction [p] in [0,1]; [percentile([10], 0.05) = 10],
    [percentile([1,2,3,4,5], 0.5) = 3] and [percentile([1,2], 0.25) = 1.25]. *)
Theorem percentile_linear_interpolation :
  (forall (a : list R) (p : R),
      a <> [] -> 0 <= p <= 1 ->
      percentile (map Fin a) (Fin p) = Num (Fin (interpolated_percentile a p))) /\
  percentile [Fin 10] (Fin 0.05) = Num (Fin 10) /\
  percentile [Fin 1; Fin 2; Fin 3; Fin 4; Fin 5] (Fin 0.5) = Num (Fin 3) /\
  percentile [Fin 1; Fin 2] (Fin 0.25) = Num (Fin 1.25).
Proof.
  split; [exact percentile_refines |].
  split; [| split].
  - change [Fin 10] with (map Fin [10]).
    rewrite (percentile_refines [10] 0.05) by (try discriminate; lra).
    unfold interpolated_percentile. simpl length. simpl INR.
    replace (0.05 * (1 - 1)) with (IZR 0) by (simpl; lra).
    rewrite ZfloorZ. replace (Zceil (IZR 0)) with 0%Z by (symmetry; apply Zceil_eq; simpl; lra).
    reflexivity.
  - change [Fin 1; Fin 2; Fin 3; Fin 4; Fin 5] with (map Fin [1; 2; 3; 4; 5]).
    rewrite (percentile_refines [1; 2; 3; 4; 5] 0.5) by (try discriminate; lra).
    unfold interpolated_percentile. simpl length. simpl INR.
    replace (0.5 * (1 + 1 + 1 + 1 + 1 - 1)) with (IZR 2) by (simpl; lra).
    rewrite ZfloorZ. replace (Zceil (IZR 2)) with 2%Z by (symmetry; apply Zceil_eq; simpl; lra).
    reflexivity.
  - change [Fin 1; Fin 2] with (map Fin [1; 2]).
    rewrite (percentile_refines [1; 2] 0.25) by (try discriminate; lra).
    unfold interpolated_percentile. simpl length. simpl INR.
    replace (Zfloor (0.25 * (1 + 1 - 1))) with 0%Z by (symmetry; apply Zfloor_eq; simpl; lra).
    replace (Zceil (0.25 * (1 + 1 - 1))) with 1%Z by (symmetry; apply Zceil_eq; simpl; lra).
    simpl. f_equal. f_equal. lra.
Qed.

Lemma percentile_linear_interpolation_witness :
  percentile (map Fin [4; 8; 15]) (Fin 0.5) =
    Num (Fin (interpolated_percentile [4; 8; 15] 0.5)).
Proof.
  apply (proj1 percentile_linear_interpolation); [discriminate | lra].
Defined.

(** ** The store *)

Lemma bind_run {A B} (c : M A) (k : A -> M B) (w w1 : world) (a : A) :
  c w = Some (a, w1) -> mbind c k w = k a w1.
Proof. intros H. unfold mbind. now rewrite H. Qed.

Lemma array_read_run (r : ref) (l : list number) (w : world) :
  arrays w !! r = Some l -> array_read r w = Some (l, w).
Proof. intros H. unfold array_read. now rewrite H. Qed.

Lemma array_write_run (r : ref) (l0 l : list number) (w : world) :
  arrays w !! r = Some l0 -> array_write r l w = Some (tt, store r l w).
Proof. intros H. unfold array_write. now rewrite H. Qed.

Lemma alloc_lookup_new (l : list number) (w : world) :
  arrays (alloc l w) !! length (arrays w) = Some l.
Proof. simpl. now apply list_lookup_middle. Qed.

Lemma alloc_lookup_old (l l' : list number) (w : world) (r : ref) :
  arrays w !! r = Some l' -> arrays (alloc l w) !! r = Some l'.
Proof. intros H. simpl. now apply lookup_app_l_Some. Qed.

Lemma alloc_length (l : list number) (w : world) :
  length (arrays (alloc l w)) = S (length (arrays w)).
Proof. simpl. rewrite length_app. simpl. lia. Qed.

Lemma store_lookup_same (r : ref) (l0 l : list number) (w : world) :
  arrays w !! r = Some l0 -> arrays (store r l w) !! r = Some l.
Proof.
  intros H. simpl. apply list_lookup_insert_eq. now apply lookup_lt_Some in H.
Qed.

Lemma store_lookup_other (r r' : ref) (l : list number) (w : world) :
  r <> r' -> arrays (store r l w) !! r' = arrays w !! r'.
Proof. intros H. simpl. now apply list_lookup_insert_ne. Qed.

Lemma store_length (r : ref) (l : list number) (w : world) :
  length (arrays (store r l w)) = length (arrays w).
Proof. simpl. apply length_insert. Qed.

Lemma frame_refl w : frame w w.
Proof. unfold frame. auto. Qed.

Lemma frame_trans w1 w2 w3 : frame w1 w2 -> frame w2 w3 -> frame w1 w3.
Proof.
  intros (A1 & D1 & S1) (A2 & D2 & S2). unfold frame.
  split; [| split]; [auto | congruence | congruence].
Qed.

Lemma frame_alloc l w : frame w (alloc l w).
Proof.
  unfold frame. split; [| split]; [| reflexivity | reflexivity].
  intros r l' H. now apply alloc_lookup_old.
Qed.

(** Overwriting an array that [w] does not have keeps [w] framed. *)
Lemma frame_store_fresh (r : ref) (l : list number) (w w' : world) :
  frame w w' -> (length (arrays w) <= r)%nat -> frame w (store r l w').
Proof.
  intros (A & D & S) Hr. unfold frame. split; [| split]; [| exact D | exact S].
  intros r' l' H'. rewrite store_lookup_other.
  - now apply A.
  - apply lookup_lt_Some in H'. lia.
Qed.

Lemma INR_zero_iff (n : nat) : Reqb (INR n) 0 = true <-> n = 0%nat.
Proof.
  rewrite Reqb_true. split.
  - intros H. destruct n; [reflexivity |]. exfalso.
    pose proof (pos_INR n). rewrite S_INR in H. lra.
  - intros ->. reflexivity.
Qed.

Lemma length_sort_insert cmp x l : length (sort_insert cmp x l) = S (length l).
Proof.
  induction l as [| y l IH]; [reflexivity |].
  cbn [sort_insert]. destruct (cmp x y >? Fin 0)%js; cbn [length];
    [now rewrite IH | reflexivity].
Qed.

Lemma length_sort_by cmp l : length (sort_by cmp l) = length l.
Proof.
  induction l as [| x l IH]; [reflexivity |].
  change (sort_by cmp (x :: l)) with (sort_insert cmp x (sort_by cmp l)).
  rewrite length_sort_insert. simpl. now rewrite IH.
Qed.

(** ** Summarizer *)

(** [summarize] on an array holding [l]: it returns the statistics of the
    finite values of [l], and every array of the store, its argument
    included, holds afterwards what it held before. *)
Lemma summarize_run (arr : ref) (w : world) (l : list number) :
  arrays w !! arr = Some l ->
  exists w',
    summarize arr w = Some (statistics (List.filter is_finite l), w') /\
    frame w w'.
Proof.
  intros Harr. unfold summarize, statistics.
  set (fl := List.filter is_finite l). set (n := length (arrays w)).
  set (w1 := alloc fl w).
  assert (H1 : array_filter is_finite arr w = Some (n, w1)).
  { unfold array_filter. now rewrite (bind_run _ _ _ _ _ (array_read_run _ _ _ Harr)). }
  assert (Hn : arrays w1 !! n = Some fl) by apply alloc_lookup_new.
  rewrite (bind_run _ _ _ _ _ H1).
  rewrite (bind_run _ _ _ _ _ (array_read_run _ _ _ Hn)).
  destruct (array_length fl === Fin 0)%js.
  { exists w1. split; [reflexivity | apply frame_alloc]. }
  set (w2 := alloc fl w1).
  assert (Hlen1 : length (arrays w1) = S n) by apply alloc_length.
  assert (H2 : array_spread n w1 = Some (S n, w2)).
  { unfold array_spread. rewrite (bind_run _ _ _ _ _ (array_read_run _ _ _ Hn)).
    unfold array_new. now rewrite Hlen1. }
  assert (Hc : arrays w2 !! S n = Some fl).
  { unfold w2. rewrite <- Hlen1. apply alloc_lookup_new. }
  set (cmp := fun a b : number => (a - b)%js).
  set (w3 := store (S n) (sort_by cmp fl) w2).
  assert (H3 : array_sort cmp (S n) w2 = Some (S n, w3)).
  { unfold array_sort. rewrite (bind_run _ _ _ _ _ (array_read_run _ _ _ Hc)).
    now rewrite (bind_run _ _ _ _ _ (array_write_run _ _ _ _ Hc)). }
  assert (Hs : arrays w3 !! S n = Some (sort_by cmp fl))
    by (eapply store_lookup_same; exact Hc).
  rewrite (bind_run _ _ _ _ _ H2), (bind_run _ _ _ _ _ H3).
  unfold array_reduce.
  rewrite (bind_run _ _ _ _ _ (bind_run _ _ _ _ _ (array_read_run _ _ _ Hs))).
  rewrite (bind_run _ _ _ _ _ (array_read_run _ _ _ Hs)).
  exists w3. split; [reflexivity |].
  apply frame_store_fresh; [| fold n; lia].
  eapply frame_trans; apply frame_alloc.
Qed.

Lemma statistics_no_finite (a : list number) :
  a = [] ->
  statistics a = {| mean := Num NaN; p5 := Num NaN; p95 := Num NaN |}.
Proof.
  intros ->. unfold statistics, array_length. js_simpl.
  replace (Reqb (INR (length (@nil number))) 0) with true; [reflexivity |].
  symmetry. now apply INR_zero_iff.
Qed.

Lemma statistics_sevens :
  statistics [Fin 7; Fin 7; Fin 7] =
    {| mean := Num (Fin 7); p5 := Num (Fin 7); p95 := Num (Fin 7) |}.
Proof.
  unfold statistics, array_length. js_simpl.
  replace (Reqb (INR (length [Fin 7; Fin 7; Fin 7])) 0) with false
    by (symmetry; apply Reqb_false; simpl; lra).
  assert (Hcmp : (Fin 7 - Fin 7 >? Fin 0)%js = false).
  { unfold js_gt. js_simpl. apply Rltb_false. lra. }
  assert (Hsort : sort_by (fun a b => (a - b)%js) [Fin 7; Fin 7; Fin 7]
                  = [Fin 7; Fin 7; Fin 7]).
  { unfold sort_by. cbn [fold_right sort_insert]. rewrite Hcmp.
    cbn [sort_insert]. now rewrite Hcmp. }
  rewrite Hsort. cbn [fold_left]. js_simpl.
  rewrite js_div_Fin by (simpl; lra).
  change [Fin 7; Fin 7; Fin 7] with (map Fin [7; 7; 7]).
  rewrite !percentile_refines by (try discriminate; lra).
  unfold interpolated_percentile. cbn [length]. cbn [INR].
  replace (Zfloor (0.05 * (1 + 1 + 1 - 1))) with 0%Z
    by (symmetry; apply Zfloor_eq; simpl; lra).
  replace (Zceil (0.05 * (1 + 1 + 1 - 1))) with 1%Z
    by (symmetry; apply Zceil_eq; simpl; lra).
  replace (Zfloor (0.95 * (1 + 1 + 1 - 1))) with 1%Z
    by (symmetry; apply Zfloor_eq; simpl; lra).
  replace (Zceil (0.95 * (1 + 1 + 1 - 1))) with 2%Z
    by (symmetry; apply Zceil_eq; simpl; lra).
  cbn [Z.eqb Z.to_nat Pos.to_nat Pos.iter_op Init.Nat.add nth Pos.eqb].
  f_equal; do 2 f_equal; simpl; lra.
Qed.

(** C5: [summarize] computes its statistics from the finite values of its
    input only; when no finite value remains, the three fields are the
    not-a-number value that stands for "undefined", which is not finite and
    is not zero; on [7, 7, 7] the mean, p5 and p95 are all 7. *)
Theorem summarize_spec :
  (forall (arr : ref) (w : world) (l : list number),
      arrays w !! arr = Some l ->
      exists w',
        summarize arr w = Some (statistics (List.filter is_finite l), w')) /\
  (forall (arr : ref) (w : world) (l : list number),
      arrays w !! arr = Some l ->
      List.filter is_finite l = [] ->
      exists w',
        summarize arr w =
          Some ({| mean := Num NaN; p5 := Num NaN; p95 := Num NaN |}, w')) /\
  (Number_isFinite (Num NaN) = false /\ Num NaN <> Num (Fin 0)) /\
  (forall (arr : ref) (w : world),
      arrays w !! arr = Some [Fin 7; Fin 7; Fin 7] ->
      exists w',
        summarize arr w =
          Some ({| mean := Num (Fin 7); p5 := Num (Fin 7); p95 := Num (Fin 7) |},
                w')).
Proof.
  split; [| split; [| split]].
  - intros arr w l H. destruct (summarize_run arr w l H) as (w' & Hrun & _).
    now exists w'.
  - intros arr w l H Hfl. destruct (summarize_run arr w l H) as (w' & Hrun & _).
    exists w'. rewrite Hrun. now rewrite (statistics_no_finite _ Hfl).
  - split; [reflexivity | discriminate].
  - intros arr w H. destruct (summarize_run arr w _ H) as (w' & Hrun & _).
    exists w'. rewrite Hrun. cbn [List.filter is_finite Number_isFinite].
    now rewrite statistics_sevens.
Qed.

Lemma summarize_spec_witness :
  let w := World [[NaN; PInf; Fin 2]] 0 Null in
  arrays w !! 0%nat = Some [NaN; PInf; Fin 2] /\
  exists w',
    summarize 0%nat w =
      Some (statistics (List.filter is_finite [NaN; PInf; Fin 2]), w').
Proof.
  split; [reflexivity |].
  apply (proj1 summarize_spec). reflexivity.
Defined.

(** C9: [summarize] returns and leaves its input array as it was: the array
    holds the same elements in the same order afterwards, and so does every
    other array of the store (filtering and sorting work on fresh arrays). *)
Theorem summarize_preserves_input :
  forall (arr : ref) (w : world) (l : list number),
    arrays w !! arr = Some l ->
    exists (st : stats) (w' : world),
      summarize arr w = Some (st, w') /\
      arrays w' !! arr = Some l /\
      (forall r l', arrays w !! r = Some l' -> arrays w' !! r = Some l').
Proof.
  intros arr w l H.
  destruct (summarize_run arr w l H) as (w' & Hrun & Hframe & _).
  exists (statistics (List.filter is_finite l)), w'.
  split; [exact Hrun |]. split; [now apply Hframe | exact Hframe].
Qed.

Lemma summarize_preserves_input_witness :
  let w := World [[Fin 3; NaN; Fin 1]] 0 Null in
  arrays w !! 0%nat = Some [Fin 3; NaN; Fin 1] /\
  exists (st : stats) (w' : world),
    summarize 0%nat w = Some (st, w') /\
    arrays w' !! 0%nat = Some [Fin 3; NaN; Fin 1] /\
    (forall r l', arrays w !! r = Some l' -> arrays w' !! r = Some l').
Proof.
  split; [reflexivity |].
  apply summarize_preserves_input. reflexivity.
Defined.

(** ** Random draws and samplers *)

Lemma draws_refl w : draws w w.
Proof. unfold draws. auto. Qed.

Lemma draws_advance w : draws w (advance w).
Proof. unfold draws. simpl. auto. Qed.

Lemma draws_trans w1 w2 w3 : draws w1 w2 -> draws w2 w3 -> draws w1 w3.
Proof.
  intros (A1 & S1 & D1) (A2 & S2 & D2). unfold draws.
  split; [| split]; [congruence | congruence | lia].
Qed.

Section Samplers.

Variable rs : nat -> R.

Lemma rand_run (lo hi : number) (w : world) :
  rand rs lo hi w =
    Some ((lo + Fin (rs (drawn w)) * (hi - lo))%js, advance w).
Proof. reflexivity. Qed.


Lemma sampleTrip_zero (p : params) (w : world) :
  (tripsPerDay p <=? Fin 0)%js = true ->
  sampleTrip rs p w = Some (Fin 0, w).
Proof. intros H. unfold sampleTrip. now rewrite H. Qed.

Lemma sampleTrip_draw (p : params) (w : world) :
  (tripsPerDay p <=? Fin 0)%js = false ->
  sampleTrip rs p w =
    Some ((tripsPerDay p
           / (tpcMin p + Fin (rs (drawn w)) * (tpcMax p - tpcMin p)))%js,
          advance w).
Proof. intros H. unfold sampleTrip. now rewrite H. Qed.

End Samplers.



(** ** The normal variate and the sensor sampler *)

Section Sensor.

Variable rs : nat -> R.
Hypothesis rs_range : forall n, 0 <= rs n < 1.

Lemma js_not_zero : js_not (Fin 0) = true.
Proof. simpl. now apply Reqb_true. Qed.

Lemma js_not_nonzero (u : R) : u <> 0 -> js_not (Fin u) = false.
Proof. intros H. simpl. now apply Reqb_false. Qed.

Lemma redraw_step (fuel : nat) (w : world) :
  redraw rs (S fuel) (Fin 0) w = redraw rs fuel (Fin (rs (drawn w))) (advance w).
Proof. cbn [redraw]. now rewrite js_not_zero. Qed.

Lemma redraw_done (fuel : nat) (u : R) (w : world) :
  u <> 0 -> redraw rs fuel (Fin u) w = Some (Fin u, w).
Proof. intros H. destruct fuel; cbn [redraw]; now rewrite js_not_nonzero. Qed.

(** With a non-zero draw [d] places ahead, the re-draw loop returns it
    (or an earlier one) as soon as it may take more than [d] iterations. *)
Lemma redraw_run (d : nat) :
  forall w,
    rs (drawn w + d) <> 0 ->
    exists u w',
      0 < u < 1 /\ draws w w' /\
      forall fuel, (d < fuel)%nat ->
        redraw rs fuel (Fin 0) w = Some (Fin u, w').
Proof.
  induction d as [| d IH]; intros w Hnz.
  - rewrite Nat.add_0_r in Hnz.
    exists (rs (drawn w)), (advance w).
    split; [pose proof (rs_range (drawn w)); lra |].
    split; [apply draws_advance |].
    intros [| fuel] Hf; [lia |].
    rewrite redraw_step. now apply redraw_done.
  - destruct (Req_dec_T (rs (drawn w)) 0) as [Hz | Hz].
    + destruct (IH (advance w)) as (u & w' & Hu & Hd & Hrun).
      { simpl. now replace (S (drawn w + d)) with (drawn w + S d)%nat by lia. }
      exists u, w'. split; [exact Hu |].
      split; [eapply draws_trans; [apply draws_advance | exact Hd] |].
      intros [| fuel] Hf; [lia |].
      rewrite redraw_step, Hz. apply Hrun. lia.
    + exists (rs (drawn w)), (advance w).
      split; [pose proof (rs_range (drawn w)); lra |].
      split; [apply draws_advance |].
      intros [| fuel] Hf; [lia |].
      rewrite redraw_step. now apply redraw_done.
Qed.

Hypothesis rs_nonzero : forall n, exists m, (n <= m)%nat /\ rs m <> 0.

Lemma redraw_total (w : world) :
  exists fuel0 u w',
    0 < u < 1 /\ draws w w' /\
    forall fuel, (fuel0 <= fuel)%nat ->
      redraw rs fuel (Fin 0) w = Some (Fin u, w').
Proof.
  destruct (rs_nonzero (drawn w)) as (m & Hm & Hnz).
  destruct (redraw_run (m - drawn w) w) as (u & w' & Hu & Hd & Hrun).
  { now replace (drawn w + (m - drawn w))%nat with m by lia. }
  exists (S (m - drawn w)), u, w'. split; [exact Hu |]. split; [exact Hd |].
  intros fuel Hf. apply Hrun. lia.
Qed.

(** [randn] returns a finite number. *)
Lemma randn_total (w : world) :
  exists fuel0 z w',
    draws w w' /\
    forall fuel, (fuel0 <= fuel)%nat -> randn rs fuel w = Some (Fin z, w').
Proof.
  destruct (redraw_total w) as (f1 & u1 & w1 & Hu1 & Hd1 & Hrun1).
  destruct (redraw_total w1) as (f2 & u2 & w2 & Hu2 & Hd2 & Hrun2).
  exists (Nat.max f1 f2), (sqrt (-2 * ln u1) * cos (2 * PI * u2)), w2.
  split; [eapply draws_trans; eassumption |].
  intros fuel Hf. unfold randn.
  rewrite (bind_run _ _ _ _ _ (Hrun1 fuel ltac:(lia))).
  rewrite (bind_run _ _ _ _ _ (Hrun2 fuel ltac:(lia))).
  unfold mret, Math_log, Math_PI, Math_cos, Rsign.
  destruct (Rlt_dec u1 0) as [Hneg | _]; [lra |].
  destruct (Rlt_dec 0 u1) as [_ | Hnpos]; [| lra].
  js_simpl. unfold Math_sqrt.
  destruct (Rlt_dec (-2 * ln u1) 0) as [Hneg | _]; [| reflexivity].
  exfalso. assert (ln u1 < 0) by (rewrite <- ln_1; apply ln_increasing; lra).
  lra.
Qed.

Lemma sampleSensor_absent (fuel : nat) (point : value) (w : world) :
  ~ finite_positive point ->
  sampleSensor rs fuel point w = Some (NaN, w).
Proof.
  intros Hnot. unfold sampleSensor.
  destruct point as [| | [x | | |]]; try reflexivity.
  cbn [Number_isFinite negb orb to_number js_le].
  replace (Rleb x 0) with true; [reflexivity |].
  symmetry. apply Rleb_true. destruct (Rle_dec x 0) as [H | H]; [exact H |].
  exfalso. apply Hnot. exists x. split; [reflexivity | lra].
Qed.

Lemma sampleSensor_present (x : R) (w : world) :
  0 < x ->
  exists fuel0 y w',
    0 < y /\ draws w w' /\
    forall fuel, (fuel0 <= fuel)%nat ->
      sampleSensor rs fuel (Num (Fin x)) w = Some (Fin y, w').
Proof.
  intros Hx.
  destruct (randn_total w) as (fuel0 & z & w' & Hd & Hrun).
  set (vr := x * 0.3 * (x * 0.3) / (x * x)).
  set (sigma2 := ln (1 + vr)).
  exists fuel0, (exp (ln x + - (sigma2 / 2) + sqrt sigma2 * z)), w'.
  split; [apply exp_pos |]. split; [exact Hd |].
  intros fuel Hf. unfold sampleSensor.
  cbn [Number_isFinite negb orb to_number js_le].
  replace (Rleb x 0) with false by (symmetry; apply Rleb_false; lra).
  rewrite (bind_run _ _ _ _ _ (Hrun fuel Hf)). unfold mret.
  js_simpl. rewrite js_div_Fin by nra. fold vr. js_simpl.
  assert (Hvr : 0 <= vr).
  { unfold vr. apply Rmult_le_pos; [nra |].
    apply Rlt_le, Rinv_0_lt_compat. nra. }
  assert (Hs2 : 0 <= sigma2).
  { unfold sigma2. rewrite <- ln_1.
    destruct (Req_dec_T vr 0) as [-> | Hne].
    - rewrite Rplus_0_r. lra.
    - apply Rlt_le, ln_increasing; lra. }
  unfold Math_log, Rsign.
  destruct (Rlt_dec (1 + vr) 0) as [Hneg | _]; [lra |].
  destruct (Rlt_dec 0 (1 + vr)) as [_ | Hnpos]; [| lra].
  destruct (Rlt_dec x 0) as [Hneg | _]; [lra |].
  destruct (Rlt_dec 0 x) as [_ | Hnpos]; [| lra].
  fold sigma2. unfold Math_sqrt.
  destruct (Rlt_dec sigma2 0) as [Hneg | _]; [lra |].
  rewrite js_div_Fin by lra. js_simpl. reflexivity.
Qed.

End Sensor.


Lemma random_source_half : random_source (fun _ => 0.5).
Proof.
  split; [intros _; lra |]. intros n. exists n. split; [lia | lra].
Qed.


(** ** One iteration of the sampling loop *)

Ltac run H := rewrite (bind_run _ _ _ _ _ H).

Lemma blendSamples_finite (f t w : R) (s : number) :
  exists b, blendSamples (Fin f) (Fin t) s (Fin w) = Fin b.
Proof.
  unfold blendSamples. destruct s as [y | | |]; js_simpl;
    try (eexists; reflexivity).
  destruct (Reqb w 0); [eexists; reflexivity |].
  rewrite js_div_Fin by lra. js_simpl. eexists; reflexivity.
Qed.

Section Iteration.

Variable rs : nat -> R.
Hypothesis rs_source : random_source rs.
Variable p : params.

Lemma sampleFleet_run (w : world) :
  exists f,
    sampleFleet rs p w = Some (f, advance (advance w)) /\
    (valid_params p -> exists x, f = Fin x /\ 0 <= x).
Proof.
  unfold sampleFleet. rewrite (bind_run _ _ _ _ _ (rand_run rs _ _ w)).
  rewrite (bind_run _ _ _ _ _ (rand_run rs _ _ (advance w))).
  eexists. split; [reflexivity |].
  intros [(x & -> & Hx) (lo & hi & -> & -> & Hs & Hs') (lo' & hi' & -> & -> & Hu & Hu')
            _ _ _ _].
  js_simpl. eexists. split; [reflexivity |].
  destruct rs_source as [Hr _].
  pose proof (Hr (drawn w)). pose proof (Hr (drawn (advance w))).
  apply Rmult_le_pos; [apply Rmult_le_pos |]; nra.
Qed.

Lemma sampleTrip_run (w : world) :
  exists t w',
    sampleTrip rs p w = Some (t, w') /\ draws w w' /\
    (valid_params p -> exists x, t = Fin x /\ 0 <= x).
Proof.
  destruct (tripsPerDay p <=? Fin 0)%js eqn:E.
  - exists (Fin 0), w. split; [now apply sampleTrip_zero |].
    split; [apply draws_refl |]. intros _. exists 0. split; [reflexivity | lra].
  - eexists. exists (advance w). split; [now apply sampleTrip_draw |].
    split; [apply draws_advance |].
    intros [_ _ _ (x & Hx & Hx0) (lo & hi & -> & -> & Hlo) _ _].
    rewrite Hx. js_simpl.
    destruct rs_source as [Hr _]. pose proof (Hr (drawn w)).
    assert (Hd : 0 < lo + rs (drawn w) * (hi + - lo)) by nra.
    rewrite js_div_Fin by lra.
    eexists. split; [reflexivity |].
    apply Rmult_le_pos; [lra |]. apply Rlt_le, Rinv_0_lt_compat. exact Hd.
Qed.

(** Whatever the sensor point is, the sensor sampler returns [NaN] or a
    finite positive number. *)
Lemma sampleSensor_total (point : value) (w : world) :
  exists fuel0 s w',
    (s = NaN \/ exists y, s = Fin y /\ 0 < y) /\ draws w w' /\
    forall fuel, (fuel0 <= fuel)%nat ->
      sampleSensor rs fuel point w = Some (s, w').
Proof.
  destruct rs_source as [Hrange Hnz].
  assert (Hno : ~ finite_positive point ->
                exists fuel0 s w',
                  (s = NaN \/ exists y, s = Fin y /\ 0 < y) /\ draws w w' /\
                  forall fuel, (fuel0 <= fuel)%nat ->
                    sampleSensor rs fuel point w = Some (s, w')).
  { intros Hnot. exists 0%nat, NaN, w. split; [now left |].
    split; [apply draws_refl |]. intros fuel _.
    now apply sampleSensor_absent. }
  destruct point as [| | [x | | |]];
    try (apply Hno; intros (x' & Hx' & _); discriminate).
  destruct (Rlt_dec 0 x) as [Hx | Hx].
  - destruct (sampleSensor_present rs Hrange Hnz x w Hx)
      as (fuel0 & y & w' & Hy & Hd & Hrun).
    exists fuel0, (Fin y), w'. split; [right; now exists y |]. now split.
  - apply Hno. intros (x' & Hx' & Hpos). inversion Hx'. subst. contradiction.
Qed.

End Iteration.

(** ** The sampling loop and the run *)

Lemma array_push_run (r : ref) (x : number) (l : list number) (w : world) :
  arrays w !! r = Some l ->
  array_push r x w = Some (tt, store r (l ++ [x]) w).
Proof.
  intros H. unfold array_push. run (array_read_run _ _ _ H).
  now apply (array_write_run _ l).
Qed.

Lemma draws_lookup (w w' : world) (r : ref) :
  draws w w' -> arrays w' !! r = arrays w !! r.
Proof. intros (H & _). now rewrite H. Qed.

Section Run.

Variable rs : nat -> R.
Hypothesis rs_source : random_source rs.
Variable p : params.
Variable point : value.
Variable k : nat.
Hypothesis samples_k : samples p = Fin (INR k).
Variables fleet trip sensor blend : ref.
Hypothesis distinct : NoDup [fleet; trip; sensor; blend].

Lemma sampling_loop_exit (redraws fuel : nat) (w : world) :
  sampling_loop rs redraws p point fleet trip sensor blend fuel
    (Fin (INR k)) w = Some (tt, w).
Proof.
  assert (H : (Fin (INR k) <? samples p)%js = false).
  { rewrite samples_k. js_simpl. apply Rltb_false. lra. }
  destruct fuel; cbn [sampling_loop]; now rewrite H.
Qed.

(** From [i], the loop runs the [n] iterations that remain: each of the
    four arrays grows by [n] elements, no other array changes, and the
    blended elements are finite when the parameters are valid. *)
Lemma sampling_loop_run (n : nat) :
  forall (i : nat) (w : world) (lf lt ls lb : list number),
    (i + n = k)%nat ->
    arrays w !! fleet = Some lf -> arrays w !! trip = Some lt ->
    arrays w !! sensor = Some ls -> arrays w !! blend = Some lb ->
    exists (fuel0 : nat) (w' : world) (lf' lt' ls' lb' : list number),
      (forall redraws fuel,
          (fuel0 <= redraws)%nat -> (n <= fuel)%nat ->
          sampling_loop rs redraws p point fleet trip sensor blend fuel
            (Fin (INR i)) w = Some (tt, w')) /\
      arrays w' !! fleet = Some (lf ++ lf') /\
      arrays w' !! trip = Some (lt ++ lt') /\
      arrays w' !! sensor = Some (ls ++ ls') /\
      arrays w' !! blend = Some (lb ++ lb') /\
      length lf' = n /\ length lt' = n /\ length ls' = n /\ length lb' = n /\
      (valid_params p -> Forall (fun b => is_finite b = true) lb') /\
      length (arrays w') = length (arrays w) /\
      lastSensorCitywideEstimate w' = lastSensorCitywideEstimate w.
Proof.
  assert (Hft : fleet <> trip /\ fleet <> sensor /\ fleet <> blend /\
                trip <> sensor /\ trip <> blend /\ sensor <> blend).
  { apply NoDup_cons in distinct as [H1 H2].
    apply NoDup_cons in H2 as [H2 H3]. apply NoDup_cons in H3 as [H3 _].
    repeat setoid_rewrite elem_of_cons in H1.
    repeat setoid_rewrite elem_of_cons in H2.
    repeat setoid_rewrite elem_of_cons in H3. intuition. }
  destruct Hft as (Hft & Hfs & Hfb & Hts & Htb & Hsb).
  induction n as [| n IH]; intros i w lf lt ls lb Hi Hf Ht Hs Hb.
  - exists 0%nat, w, [], [], [], [].
    rewrite !app_nil_r. replace i with k by lia.
    split; [intros; apply sampling_loop_exit |].
    repeat split; try assumption. intros _. constructor.
  - destruct (sampleFleet_run rs rs_source p w) as (f & Hrf & Hvf).
    destruct (sampleTrip_run rs rs_source p (advance (advance w)))
      as (t & w2 & Hrt & Hd2 & Hvt).
    destruct (sampleSensor_total rs rs_source point w2)
      as (fuel1 & s & w3 & Hsv & Hd3 & Hrs).
    assert (Hd : draws w w3).
    { eapply draws_trans; [| exact Hd3].
      eapply draws_trans; [| exact Hd2].
      eapply draws_trans; apply draws_advance. }
    set (b := blendSamples f t s (sensorWeight p)).
    set (w4 := store fleet (lf ++ [f]) w3).
    set (w5 := store trip (lt ++ [t]) w4).
    set (w6 := store sensor (ls ++ [s]) w5).
    set (w7 := store blend (lb ++ [b]) w6).
    assert (Hf3 : arrays w3 !! fleet = Some lf)
      by (now rewrite (draws_lookup w w3)).
    assert (Ht4 : arrays w4 !! trip = Some lt).
    { unfold w4. rewrite store_lookup_other by exact Hft.
      now rewrite (draws_lookup w w3). }
    assert (Hs5 : arrays w5 !! sensor = Some ls).
    { unfold w5, w4. rewrite !store_lookup_other by auto.
      now rewrite (draws_lookup w w3). }
    assert (Hb6 : arrays w6 !! blend = Some lb).
    { unfold w6, w5, w4. rewrite !store_lookup_other by auto.
      now rewrite (draws_lookup w w3). }
    assert (Hf7 : arrays w7 !! fleet = Some (lf ++ [f])).
    { unfold w7, w6, w5. rewrite !store_lookup_other by auto.
      eapply store_lookup_same. exact Hf3. }
    assert (Ht7 : arrays w7 !! trip = Some (lt ++ [t])).
    { unfold w7, w6. rewrite !store_lookup_other by auto.
      eapply store_lookup_same. exact Ht4. }
    assert (Hs7 : arrays w7 !! sensor = Some (ls ++ [s])).
    { unfold w7. rewrite !store_lookup_other by auto.
      eapply store_lookup_same. exact Hs5. }
    assert (Hb7 : arrays w7 !! blend = Some (lb ++ [b]))
      by (eapply store_lookup_same; exact Hb6).
    destruct (IH (S i) w7 _ _ _ _ ltac:(lia) Hf7 Ht7 Hs7 Hb7)
      as (fuel0 & w' & lf' & lt' & ls' & lb' & Hloop & Hf' & Ht' & Hs' & Hb'
          & Lf & Lt & Ls & Lb & Hfin & Hlen & Hlast).
    exists (Nat.max fuel1 fuel0), w', (f :: lf'), (t :: lt'), (s :: ls'),
      (b :: lb').
    split; [| repeat split].
    + intros redraws [| fuel] Hre Hfu; [lia |].
      cbn [sampling_loop].
      replace (Fin (INR i) <? samples p)%js with true
        by (symmetry; rewrite samples_k; js_simpl; apply Rltb_true;
            apply lt_INR; lia).
      run Hrf. run Hrt. run (Hrs redraws ltac:(lia)).
      fold b.
      run (array_push_run _ f _ _ Hf3). fold w4.
      run (array_push_run _ t _ _ Ht4). fold w5.
      run (array_push_run _ s _ _ Hs5). fold w6.
      run (array_push_run _ b _ _ Hb6). fold w7.
      replace (Fin (INR i) + Fin 1)%js with (Fin (INR (S i)))
        by (rewrite S_INR; reflexivity).
      apply Hloop; lia.
    + rewrite Hf'. now rewrite <- app_assoc.
    + rewrite Ht'. now rewrite <- app_assoc.
    + rewrite Hs'. now rewrite <- app_assoc.
    + rewrite Hb'. now rewrite <- app_assoc.
    + simpl. now rewrite Lf.
    + simpl. now rewrite Lt.
    + simpl. now rewrite Ls.
    + simpl. now rewrite Lb.
    + intros Hv. constructor; [| now apply Hfin].
      destruct (Hvf Hv) as (xf & -> & _). destruct (Hvt Hv) as (xt & -> & _).
      destruct (valid_sensorWeight p Hv) as (xw & Hw & _).
      unfold b. rewrite Hw.
      destruct (blendSamples_finite xf xt xw s) as [y ->]. reflexivity.
    + rewrite Hlen. unfold w7, w6, w5, w4. rewrite !store_length.
      destruct Hd as (-> & _). reflexivity.
    + rewrite Hlast. unfold w7, w6, w5, w4. simpl. now destruct Hd as (_ & -> & _).
Qed.

End Run.

Lemma NoDup_consecutive (n : nat) : NoDup [n; S n; S (S n); S (S (S n))].
Proof.
  repeat (apply NoDup_cons; split;
          [repeat setoid_rewrite elem_of_cons; rewrite elem_of_nil; lia |]).
  apply NoDup_nil. exact I.
Qed.

(** A run on parameters with [samples = k]: it returns, whatever the sensor
    estimate of the world is; the four arrays of the results are distinct
    and hold [k] elements each; each statistic is that of the finite
    elements of its array; the blended elements are finite when the
    parameters are valid. *)
Lemma runMonteCarlo_run (rs : nat -> R) (p : params) (k : nat) (w : world) :
  random_source rs ->
  samples p = Fin (INR k) ->
  exists (fuel0 : nat) (res : results) (w' : world)
         (lf lt ls lb : list number),
    (forall fuel, (fuel0 <= fuel)%nat ->
                  runMonteCarlo rs fuel p w = Some (res, w')) /\
    NoDup [fleetSamples res; tripSamples res; sensorSamples res;
           blendedSamples res] /\
    arrays w' !! fleetSamples res = Some lf /\
    arrays w' !! tripSamples res = Some lt /\
    arrays w' !! sensorSamples res = Some ls /\
    arrays w' !! blendedSamples res = Some lb /\
    length lf = k /\ length lt = k /\ length ls = k /\ length lb = k /\
    fleetStats res = statistics (List.filter is_finite lf) /\
    tripStats res = statistics (List.filter is_finite lt) /\
    sensorStats res = statistics (List.filter is_finite ls) /\
    blendedStats res = statistics (List.filter is_finite lb) /\
    (valid_params p -> Forall (fun b => is_finite b = true) lb).
Proof.
  intros Hrs Hk.
  set (n0 := length (arrays w)).
  set (w1 := alloc [] w). set (w2 := alloc [] w1).
  set (w3 := alloc [] w2). set (w4 := alloc [] w3).
  assert (L1 : length (arrays w1) = S n0) by apply alloc_length.
  assert (L2 : length (arrays w2) = S (S n0))
    by (unfold w2; now rewrite alloc_length, L1).
  assert (L3 : length (arrays w3) = S (S (S n0)))
    by (unfold w3; now rewrite alloc_length, L2).
  assert (N1 : array_new [] w = Some (n0, w1)) by reflexivity.
  assert (N2 : array_new [] w1 = Some (S n0, w2))
    by (unfold array_new; now rewrite L1).
  assert (N3 : array_new [] w2 = Some (S (S n0), w3))
    by (unfold array_new; now rewrite L2).
  assert (N4 : array_new [] w3 = Some (S (S (S n0)), w4))
    by (unfold array_new; now rewrite L3).
  assert (Hf : arrays w4 !! n0 = Some []).
  { do 3 apply alloc_lookup_old. apply alloc_lookup_new. }
  assert (Ht : arrays w4 !! S n0 = Some []).
  { do 2 apply alloc_lookup_old. rewrite <- L1. apply alloc_lookup_new. }
  assert (Hs : arrays w4 !! S (S n0) = Some []).
  { apply alloc_lookup_old. rewrite <- L2. apply alloc_lookup_new. }
  assert (Hb : arrays w4 !! S (S (S n0)) = Some []).
  { rewrite <- L3. apply alloc_lookup_new. }
  set (point := lastSensorCitywideEstimate w4).
  assert (Hp : read_lastSensorCitywideEstimate w4 = Some (point, w4))
    by reflexivity.
  destruct (sampling_loop_run rs Hrs p point k Hk _ _ _ _
              (NoDup_consecutive n0) k 0%nat w4 [] [] [] []
              ltac:(lia) Hf Ht Hs Hb)
    as (fuel0 & w5 & lf & lt & ls & lb & Hloop & Hf5 & Ht5 & Hs5 & Hb5
        & Lf & Lt & Ls & Lb & Hfin & _ & _).
  rewrite app_nil_l in Hf5, Ht5, Hs5, Hb5.
  destruct (summarize_run _ w5 lf Hf5) as (w6 & S6 & F6).
  destruct (summarize_run _ w6 lt (proj1 F6 _ _ Ht5)) as (w7 & S7 & F7).
  destruct (summarize_run _ w7 ls (proj1 F7 _ _ (proj1 F6 _ _ Hs5)))
    as (w8 & S8 & F8).
  destruct (summarize_run _ w8 lb
              (proj1 F8 _ _ (proj1 F7 _ _ (proj1 F6 _ _ Hb5))))
    as (w9 & S9 & F9).
  pose proof (frame_trans _ _ _ F6 (frame_trans _ _ _ F7
                (frame_trans _ _ _ F8 F9))) as [F _].
  eexists (Nat.max fuel0 k), _, w9, lf, lt, ls, lb.
  split.
  - intros fuel Hfuel. unfold runMonteCarlo.
    run N1. run N2. run N3. run N4. run Hp.
    run (Hloop fuel fuel ltac:(lia) ltac:(lia)).
    run S6. run S7. run S8. run S9. reflexivity.
  - cbn [fleetSamples tripSamples sensorSamples blendedSamples
         fleetStats tripStats sensorStats blendedStats].
    split; [apply NoDup_consecutive |].
    repeat split; auto.
Qed.

(** C7: one run on valid parameters with [samples = k] returns, whatever the
    sensor estimate is, four distinct arrays (fleet, trip, sensor, blended)
    of exactly [k] elements each. *)
Theorem runMonteCarlo_lengths :
  forall (rs : nat -> R) (p : params) (k : nat) (w : world),
    random_source rs ->
    valid_params p ->
    samples p = Fin (INR k) ->
    exists (fuel0 : nat) (res : results) (w' : world)
           (lf lt ls lb : list number),
      (forall fuel, (fuel0 <= fuel)%nat ->
                    runMonteCarlo rs fuel p w = Some (res, w')) /\
      NoDup [fleetSamples res; tripSamples res; sensorSamples res;
             blendedSamples res] /\
      arrays w' !! fleetSamples res = Some lf /\
      arrays w' !! tripSamples res = Some lt /\
      arrays w' !! sensorSamples res = Some ls /\
      arrays w' !! blendedSamples res = Some lb /\
      length lf = k /\ length lt = k /\ length ls = k /\ length lb = k.
Proof.
  intros rs p k w Hrs _ Hk.
  destruct (runMonteCarlo_run rs p k w Hrs Hk)
    as (fuel0 & res & w' & lf & lt & ls & lb & Hrun & Hnd & Hf & Ht & Hs & Hb
        & Lf & Lt & Ls & Lb & _).
  exists fuel0, res, w', lf, lt, ls, lb. repeat split; assumption.
Qed.

(** Valid parameters: those of the scenario of the specification, with 1000
    samples. *)
Lemma valid_params_scenario :
  valid_params
    (Params (Fin 1500) (Fin 0.1) (Fin 0.1) (Fin 0.5) (Fin 0.5) (Fin 0)
       (Fin 10) (Fin 10) (Fin (INR 1000)) (Fin 0)).
Proof.
  constructor; cbn [fleetSize sfMin sfMax utilMin utilMax tripsPerDay tpcMin
                    tpcMax samples sensorWeight].
  - exists 1500. split; [reflexivity | lra].
  - exists 0.1, 0.1. repeat split; try reflexivity; lra.
  - exists 0.5, 0.5. repeat split; try reflexivity; lra.
  - exists 0. split; [reflexivity | lra].
  - exists 10, 10. repeat split; try reflexivity; lra.
  - exists 1000%nat. split; [reflexivity | lia].
  - exists 0. split; [reflexivity | lra].
Qed.

Lemma runMonteCarlo_lengths_witness :
  let p := Params (Fin 1500) (Fin 0.1) (Fin 0.1) (Fin 0.5) (Fin 0.5) (Fin 0)
             (Fin 10) (Fin 10) (Fin (INR 1000)) (Fin 0) in
  let w := World [] 0 (Num (Fin 40)) in
  random_source (fun _ => 0.5) /\
  valid_params p /\
  samples p = Fin (INR 1000) /\
  exists (fuel0 : nat) (res : results) (w' : world)
         (lf lt ls lb : list number),
    (forall fuel, (fuel0 <= fuel)%nat ->
                  runMonteCarlo (fun _ => 0.5) fuel p w = Some (res, w')) /\
    NoDup [fleetSamples res; tripSamples res; sensorSamples res;
           blendedSamples res] /\
    arrays w' !! fleetSamples res = Some lf /\
    arrays w' !! tripSamples res = Some lt /\
    arrays w' !! sensorSamples res = Some ls /\
    arrays w' !! blendedSamples res = Some lb /\
    length lf = 1000%nat /\ length lt = 1000%nat /\
    length ls = 1000%nat /\ length lb = 1000%nat.
Proof.
  intros p w.
  split; [exact random_source_half |].
  split; [exact valid_params_scenario |].
  split; [reflexivity |].
  apply runMonteCarlo_lengths;
    [exact random_source_half | exact valid_params_scenario | reflexivity].
Defined.



(** ** Validation *)

Lemma readInputs_throws_iff (get : string -> number) :
  (exists message, readInputs get = Throw message) <-> rejected get.
Proof.
  unfold readInputs, rejected.
  destruct (get "fleetSize" <=? Fin 0)%js;
    [split; [auto | intros _; eexists; reflexivity] |].
  destruct (get "sfShareMin" <? Fin 0)%js;
    [split; [auto | intros _; eexists; reflexivity] |].
  destruct (get "sfShareMax" >? Fin 100)%js;
    [split; [auto | intros _; eexists; reflexivity] |].
  destruct (get "sfShareMin" >? get "sfShareMax")%js;
    [split; [auto 6 | intros _; eexists; reflexivity] |].
  destruct (get "utilMin" <? Fin 0)%js;
    [split; [auto 6 | intros _; eexists; reflexivity] |].
  destruct (get "utilMax" >? Fin 100)%js;
    [split; [auto 6 | intros _; eexists; reflexivity] |].
  destruct (get "utilMin" >? get "utilMax")%js;
    [split; [auto 7 | intros _; eexists; reflexivity] |].
  destruct (get "tripsPerCarMin" <=? Fin 0)%js;
    [split; [auto 7 | intros _; eexists; reflexivity] |].
  destruct (get "tripsPerCarMax" <? get "tripsPerCarMin")%js;
    [split; [auto 7 | intros _; eexists; reflexivity] |].
  destruct (get "samples" <? Fin 1000)%js;
    [split; [auto 7 | intros _; eexists; reflexivity] |].
  destruct (get "sensorWeight" <? Fin 0)%js;
    [split; [auto 8 | intros _; eexists; reflexivity] |].
  destruct (get "sensorWeight" >? Fin 1)%js;
    [split; [auto 8 | intros _; eexists; reflexivity] |].
  cbn [orb]. split.
  - intros [message H]. discriminate.
  - intuition discriminate.
Qed.

Lemma readInputs_returns (get : string -> number) :
  ~ rejected get ->
  exists p, readInputs get = Return p /\
            tripsPerDay p = get "tripsPerDay"%string /\
            samples p = get "samples"%string /\
            sensorWeight p = get "sensorWeight"%string.
Proof.
  intros Hnot. destruct (readInputs get) as [message | p] eqn:E.
  - exfalso. apply Hnot. apply readInputs_throws_iff. now exists message.
  - exists p. split; [reflexivity |].
    revert E. unfold readInputs.
    repeat match goal with
           | |- context [if ?b then _ else _] => destruct b; [discriminate |]
           end.
    intros E. inversion E. auto.
Qed.

(** A rejected form stops [handleFormSubmit] before the simulation: nothing
    is drawn, no array is created, and no results are produced. *)
Lemma handleFormSubmit_rejected (rs : nat -> R) (fuel : nat)
    (get : string -> number) (w : world) :
  rejected get ->
  exists message,
    readInputs get = Throw message /\
    handleFormSubmit rs fuel get w
      = Some ((("Error: " +:+ message)%string, None), w).
Proof.
  intros H. apply readInputs_throws_iff in H. destruct H as [message H].
  exists message. split; [exact H |]. unfold handleFormSubmit. now rewrite H.
Qed.

(** Decides the comparisons between real constants left in the goal. *)
Ltac decide_cmp :=
  repeat match goal with
    | |- context [Rleb ?a ?b] =>
        first [ replace (Rleb a b) with true by (symmetry; apply Rleb_true; lra)
              | replace (Rleb a b) with false by (symmetry; apply Rleb_false; lra) ]
    | |- context [Rltb ?a ?b] =>
        first [ replace (Rltb a b) with true by (symmetry; apply Rltb_true; lra)
              | replace (Rltb a b) with false by (symmetry; apply Rltb_false; lra) ]
    | |- context [Reqb ?a ?b] =>
        first [ replace (Reqb a b) with true by (symmetry; apply Reqb_true; lra)
              | replace (Reqb a b) with false by (symmetry; apply Reqb_false; lra) ]
    end.

(** The form of the scenario is accepted whatever its number of trips per
    day is. *)
Lemma readInputs_scenario (trips : number) :
  readInputs (scenario_form trips) =
    Return (Params (Fin 1500) (Fin 10 / Fin 100)%js (Fin 10 / Fin 100)%js
              (Fin 50 / Fin 100)%js (Fin 50 / Fin 100)%js trips
              (Fin 10) (Fin 10) (Fin 5000) (Fin 0)).
Proof.
  unfold readInputs, scenario_form. simpl String.eqb. cbv iota.
  unfold js_gt. js_simpl. decide_cmp. reflexivity.
Qed.

(** C2, as the code has it: a form is rejected with an error, before any
    sampling (no draw is consumed, no array is created, no results are
    produced), when the fleet size is not positive, a share or utilization
    bound is below 0 or above 100 percent or its minimum exceeds its maximum,
    the trips-per-car minimum is not positive or exceeds the maximum, there
    are fewer than 1000 samples, or the sensor weight is outside [0,1]; in
    particular for [fleetSize = 0], [sfShareMin > sfShareMax],
    [samples = 500] and [sensorWeight = 1.5].  Every other form is accepted:
    the number of trips per day is not validated. *)
Theorem readInputs_rejects :
  (forall get : string -> number,
      rejected get ->
      forall (rs : nat -> R) (fuel : nat) (w : world),
      exists message,
        readInputs get = Throw message /\
        handleFormSubmit rs fuel get w
          = Some ((("Error: " +:+ message)%string, None), w)) /\
  (forall get : string -> number,
      (get "fleetSize" = Fin 0 -> rejected get) /\
      (forall a b : R,
          get "sfShareMin" = Fin a -> get "sfShareMax" = Fin b -> b < a ->
          rejected get) /\
      (get "samples" = Fin 500 -> rejected get) /\
      (get "sensorWeight" = Fin 1.5 -> rejected get)) /\
  (forall get : string -> number,
      ~ rejected get ->
      exists p, readInputs get = Return p /\
                tripsPerDay p = get "tripsPerDay").
Proof.
  split; [| split].
  - intros get H rs fuel w. now apply handleFormSubmit_rejected.
  - intros get. unfold rejected, js_gt. repeat split.
    + intros ->. left. js_simpl. apply Rleb_true. lra.
    + intros a b -> -> Hab. right. left. right. right. js_simpl.
      now apply Rltb_true.
    + intros ->. do 4 right. left. js_simpl. apply Rltb_true. lra.
    + intros ->. do 5 right. right. js_simpl. apply Rltb_true. lra.
  - intros get H. destruct (readInputs_returns get H) as (p & Hp & Ht & _).
    now exists p.
Qed.

Lemma readInputs_rejects_witness :
  let get := fun id => if String.eqb id "samples" then Fin 500
                       else scenario_form (Fin 0) id in
  rejected get /\
  exists message,
    readInputs get = Throw message /\
    handleFormSubmit (fun _ => 0.5) 10 get (World [] 0 Null)
      = Some ((("Error: " +:+ message)%string, None), World [] 0 Null).
Proof.
  intros get.
  assert (H : rejected get).
  { do 4 right. left. unfold get. simpl String.eqb. cbv iota.
    js_simpl. apply Rltb_true. lra. }
  split; [exact H |].
  apply (proj1 readInputs_rejects get H).
Defined.


(** C2, as stated, fails: a form whose number of trips per day is -5, the
    other fields being those of the scenario of the specification, violates
    the non-negativity constraint; [readInputs] accepts it and
    [handleFormSubmit] runs the simulation on it. *)
Lemma readInputs_accepts_negative_tripsPerDay :
  let get := scenario_form (Fin (-5)) in
  get "tripsPerDay" = Fin (-5) /\
  -5 < 0 /\
  (exists p, readInputs get = Return p /\ tripsPerDay p = Fin (-5)) /\
  exists (fuel : nat) (res : results) (w' : world),
    handleFormSubmit (fun _ => 0.5) fuel get (World [] 0 Null)
      = Some (("Simulation complete."%string, Some res), w').
Proof.
  intros get. split; [reflexivity |]. split; [lra |].
  unfold get, handleFormSubmit. rewrite readInputs_scenario.
  split; [eexists; split; reflexivity |].
  set (p := Params _ _ _ _ _ _ _ _ _ _).
  assert (Hk : samples p = Fin (INR (Z.to_nat 5000))).
  { cbn [samples p]. rewrite INR_IZR_INZ. now rewrite Z2Nat.id by lia. }
  destruct (runMonteCarlo_run (fun _ => 0.5) p _ (World [] 0 Null)
              random_source_half Hk)
    as (fuel0 & res & w' & _ & _ & _ & _ & Hrun & _).
  exists fuel0, res, w'.
  now rewrite (bind_run _ _ _ _ _ (Hrun fuel0 (Nat.le_refl _))).
Qed.

(** * Further properties of the engine *)

(** ** The uniform draw and the fleet sampler *)



(** X2: with a non-negative fleet size and non-negative share and
    utilization ranges, the fleet sampler consumes exactly two draws and
    returns a finite number between [fleetSize*sfMin*utilMin] and
    [fleetSize*sfMax*utilMax]. *)
Theorem sampleFleet_range :
  forall (rs : nat -> R) (p : params) (w : world)
         (F slo shi ulo uhi : R),
    fleetSize p = Fin F -> sfMin p = Fin slo -> sfMax p = Fin shi ->
    utilMin p = Fin ulo -> utilMax p = Fin uhi ->
    0 <= F -> 0 <= slo <= shi -> 0 <= ulo <= uhi ->
    0 <= rs (drawn w) < 1 -> 0 <= rs (S (drawn w)) < 1 ->
    exists x,
      sampleFleet rs p w = Some (Fin x, advance (advance w)) /\
      F * slo * ulo <= x <= F * shi * uhi.
Proof.
  intros rs p w F slo shi ulo uhi HF Hslo Hshi Hulo Huhi F0 Hs Hu H1 H2.
  unfold sampleFleet.
  rewrite (bind_run _ _ _ _ _ (rand_run rs _ _ w)).
  rewrite (bind_run _ _ _ _ _ (rand_run rs _ _ (advance w))).
  rewrite HF, Hslo, Hshi, Hulo, Huhi. js_simpl. cbn [drawn advance].
  set (s := slo + rs (drawn w) * (shi + - slo)).
  set (u := ulo + rs (S (drawn w)) * (uhi + - ulo)).
  exists (F * s * u). split; [reflexivity |].
  assert (Hs' : slo <= s <= shi) by (unfold s; split; nra).
  assert (Hu' : ulo <= u <= uhi) by (unfold u; split; nra).
  assert (A : F * slo <= F * s) by (apply Rmult_le_compat_l; lra).
  assert (B : F * s <= F * shi) by (apply Rmult_le_compat_l; lra).
  assert (C : 0 <= F * slo) by (apply Rmult_le_pos; lra).
  split.
  - apply Rmult_le_compat; lra.
  - apply Rmult_le_compat; try lra.
Qed.

Lemma sampleFleet_range_witness :
  let p := Params (Fin 1500) (Fin 0.1) (Fin 0.2) (Fin 0.5) (Fin 0.75) (Fin 0)
             (Fin 10) (Fin 10) (Fin 5000) (Fin 0) in
  let w := World [] 0 Null in
  exists x,
    sampleFleet (fun _ => 0.5) p w = Some (Fin x, advance (advance w)) /\
    1500 * 0.1 * 0.5 <= x <= 1500 * 0.2 * 0.75.
Proof.
  intros p w.
  apply (sampleFleet_range (fun _ => 0.5) p w 1500 0.1 0.2 0.5 0.75);
    try reflexivity; lra.
Defined.

(** ** The normal variate *)

Lemma first_nonzero (rs : nat -> R) (k : nat) :
  forall n, rs (n + k)%nat <> 0 ->
    exists d, (forall i, (n <= i < n + d)%nat -> rs i = 0) /\ rs (n + d)%nat <> 0.
Proof.
  induction k as [| k IH]; intros n Hnz.
  - exists 0%nat. split; [intros i Hi; lia | exact Hnz].
  - destruct (Req_dec_T (rs n) 0) as [Hz | Hz].
    + destruct (IH (S n)) as (d & Hzero & Hd).
      { now replace (S n + k)%nat with (n + S k)%nat by lia. }
      exists (S d). split.
      * intros i Hi. destruct (Nat.eq_dec i n) as [-> | Hne]; [exact Hz |].
        apply Hzero. lia.
      * now replace (n + S d)%nat with (S n + d)%nat by lia.
    + exists 0%nat. split; [intros i Hi; lia |].
      now rewrite Nat.add_0_r.
Qed.

(** The re-draw loop skips the zero draws and returns the first non-zero
    one. *)
Lemma redraw_first (rs : nat -> R) (d : nat) :
  forall (w : world) (fuel : nat),
    (forall i, (drawn w <= i < drawn w + d)%nat -> rs i = 0) ->
    rs (drawn w + d)%nat <> 0 ->
    (d < fuel)%nat ->
    redraw rs fuel (Fin 0) w =
      Some (Fin (rs (drawn w + d)%nat),
            World (arrays w) (S (drawn w + d)) (lastSensorCitywideEstimate w)).
Proof.
  induction d as [| d IH]; intros w fuel Hzero Hnz Hfuel;
    (destruct fuel as [| fuel]; [lia |]); rewrite redraw_step.
  - rewrite Nat.add_0_r in *. now apply redraw_done.
  - rewrite (Hzero (drawn w)) by lia.
    rewrite (IH (advance w) fuel); cbn [drawn advance arrays
                                         lastSensorCitywideEstimate].
    + now replace (S (drawn w) + d)%nat with (drawn w + S d)%nat by lia.
    + intros i Hi. apply Hzero. lia.
    + now replace (S (drawn w) + d)%nat with (drawn w + S d)%nat by lia.
    + lia.
Qed.

(** X3: [randn] is the cosine branch of the Box-Muller transform on the
    first two non-zero draws: it skips the zero draws before [u1 = rs i],
    then those before [u2 = rs j], returns the finite number
    [sqrt(-2 ln u1) * cos(2 pi u2)], leaves the position just after [j] and
    touches nothing else. *)
Theorem randn_box_muller :
  forall (rs : nat -> R) (w : world),
    random_source rs ->
    exists (i j fuel0 : nat),
      (drawn w <= i < j)%nat /\
      (forall n, (drawn w <= n < i)%nat -> rs n = 0) /\ rs i <> 0 /\
      (forall n, (i < n < j)%nat -> rs n = 0) /\ rs j <> 0 /\
      forall fuel, (fuel0 <= fuel)%nat ->
        randn rs fuel w =
          Some (Fin (sqrt (-2 * ln (rs i)) * cos (2 * PI * rs j)),
                World (arrays w) (S j) (lastSensorCitywideEstimate w)).
Proof.
  intros rs w [Hrange Hnz].
  destruct (Hnz (drawn w)) as (m1 & Hm1 & Hnz1).
  destruct (first_nonzero rs (m1 - drawn w) (drawn w)) as (d1 & Hz1 & Hd1).
  { now replace (drawn w + (m1 - drawn w))%nat with m1 by lia. }
  set (i := (drawn w + d1)%nat) in *.
  destruct (Hnz (S i)) as (m2 & Hm2 & Hnz2).
  destruct (first_nonzero rs (m2 - S i) (S i)) as (d2 & Hz2 & Hd2).
  { now replace (S i + (m2 - S i))%nat with m2 by lia. }
  set (j := (S i + d2)%nat) in *.
  exists i, j, (S (Nat.max d1 d2)).
  split; [unfold i, j; lia |].
  split; [exact Hz1 |]. split; [exact Hd1 |].
  split; [intros n Hn; apply Hz2; lia |]. split; [exact Hd2 |].
  intros fuel Hfuel. unfold randn.
  rewrite (bind_run _ _ _ _ _ (redraw_first rs d1 w fuel Hz1 Hd1 ltac:(lia))).
  fold i. set (w1 := World (arrays w) (S i) (lastSensorCitywideEstimate w)).
  rewrite (bind_run _ _ _ _ _
             (redraw_first rs d2 w1 fuel Hz2 Hd2 ltac:(lia))).
  cbn [drawn arrays lastSensorCitywideEstimate w1]. fold j.
  unfold mret, Math_log, Math_PI, Math_cos, Rsign.
  pose proof (Hrange i) as Hi.
  destruct (Rlt_dec (rs i) 0) as [Hneg | _]; [lra |].
  destruct (Rlt_dec 0 (rs i)) as [_ | Hnpos]; [| lra].
  js_simpl. unfold Math_sqrt.
  destruct (Rlt_dec (-2 * ln (rs i)) 0) as [Hneg | _]; [| reflexivity].
  exfalso. assert (ln (rs i) < 0) by (rewrite <- ln_1; apply ln_increasing; lra).
  lra.
Qed.

Lemma randn_box_muller_witness :
  random_source (fun _ => 0.5) /\
  exists (i j fuel0 : nat),
    (drawn (World [] 0 Null) <= i < j)%nat /\
    (forall n, (drawn (World [] 0 Null) <= n < i)%nat ->
               (fun _ : nat => 0.5) n = 0) /\
    (fun _ : nat => 0.5) i <> 0 /\
    (forall n, (i < n < j)%nat -> (fun _ : nat => 0.5) n = 0) /\
    (fun _ : nat => 0.5) j <> 0 /\
    forall fuel, (fuel0 <= fuel)%nat ->
      randn (fun _ => 0.5) fuel (World [] 0 Null) =
        Some (Fin (sqrt (-2 * ln ((fun _ : nat => 0.5) i))
                   * cos (2 * PI * (fun _ : nat => 0.5) j)),
              World (arrays (World [] 0 Null)) (S j)
                (lastSensorCitywideEstimate (World [] 0 Null))).
Proof.
  split; [exact random_source_half |].
  apply randn_box_muller. exact random_source_half.
Defined.

(** ** The sensor sampler *)




(** ** The blender *)



(** ** Sorting *)

Lemma filter_finite_values (l : list number) :
  List.filter is_finite l = map Fin (finite_values l).
Proof.
  induction l as [| [x | | |] l IH]; cbn [List.filter is_finite Number_isFinite
    finite_values map]; [reflexivity | now rewrite IH | exact IH ..].
Qed.

Lemma sort_insert_reals (x : R) (l : list R) :
  StronglySorted Rle l ->
  exists l',
    sort_insert (fun a b => (a - b)%js) (Fin x) (map Fin l) = map Fin l' /\
    x :: l ≡ₚ l' /\ StronglySorted Rle l'.
Proof.
  induction l as [| y l IH]; intros Hs.
  - exists [x]. split; [reflexivity |]. split; [reflexivity |].
    repeat constructor.
  - cbn [map sort_insert]. unfold js_gt. js_simpl.
    apply StronglySorted_inv in Hs as [Hs Hy].
    destruct (Rltb 0 (x + - y)) eqn:E.
    + apply Rltb_true in E. destruct (IH Hs) as (l' & Heq & Hperm & Hs').
      exists (y :: l'). split; [now rewrite Heq |].
      split; [now rewrite Permutation_swap, Hperm |].
      constructor; [exact Hs' |]. rewrite <- Hperm.
      constructor; [lra | exact Hy].
    + apply Rltb_false in E. exists (x :: y :: l).
      split; [reflexivity |]. split; [reflexivity |].
      constructor; [now constructor |].
      constructor; [lra |]. eapply Forall_impl; [exact Hy |].
      simpl. intros z Hz. lra.
Qed.

Lemma sorted_nth (a : list R) :
  StronglySorted Rle a ->
  forall i j, (i <= j < length a)%nat -> nth i a 0 <= nth j a 0.
Proof.
  induction 1 as [| x a Hs IH Hx]; intros i j Hij; simpl in Hij; [lia |].
  destruct j as [| j].
  - replace i with 0%nat by lia. simpl. lra.
  - destruct i as [| i].
    + simpl. rewrite Forall_forall in Hx. apply Hx.
      apply list_elem_of_In. apply nth_In. lia.
    + simpl. apply IH. lia.
Qed.

(** Sorting an array of reals by [(a, b) => a - b]. *)
Lemma sort_by_reals (l : list R) :
  exists l',
    sort_by (fun a b => (a - b)%js) (map Fin l) = map Fin l' /\
    l ≡ₚ l' /\ StronglySorted Rle l'.
Proof.
  induction l as [| x l (l1 & Heq & Hperm & Hs)].
  - exists []. split; [reflexivity |]. split; [reflexivity | constructor].
  - change (sort_by (fun a b => (a - b)%js) (map Fin (x :: l)))
      with (sort_insert (fun a b => (a - b)%js) (Fin x)
              (sort_by (fun a b => (a - b)%js) (map Fin l))).
    rewrite Heq. destruct (sort_insert_reals x l1 Hs) as (l' & Heq' & Hperm' & Hs').
    exists l'. split; [exact Heq' |]. split; [| exact Hs'].
    now rewrite Hperm.
Qed.

(** X6: what [summarize] sorts, the finite elements of its array, comes out
    of [sort((a, b) => a - b)] in ascending order and complete: the sorted
    array is a permutation of the finite values, each element at most the
    next one. *)
Theorem sort_by_ascending :
  forall l : list number,
    exists l' : list R,
      sort_by (fun a b => (a - b)%js) (List.filter is_finite l) = map Fin l' /\
      finite_values l ≡ₚ l' /\
      length l' = length (finite_values l) /\
      forall i j, (i <= j < length l')%nat -> nth i l' 0 <= nth j l' 0.
Proof.
  intros l. rewrite filter_finite_values.
  destruct (sort_by_reals (finite_values l)) as (l' & Hsort & Hperm & Hs).
  exists l'. split; [exact Hsort |]. split; [exact Hperm |].
  split; [now rewrite Hperm |].
  intros i j Hij. now apply sorted_nth.
Qed.

(** ** Percentiles of sorted arrays *)

Lemma array_get_nil (i : number) : array_get [] i = Undefined.
Proof.
  destruct i as [x | | |]; try reflexivity. unfold array_get.
  destruct (Reqb x (IZR (Zfloor x)) && Rleb 0 x); reflexivity.
Qed.

Lemma floor_ceil_gap (x : R) :
  Zfloor x <> Zceil x -> Zceil x = (Zfloor x + 1)%Z.
Proof.
  intros Hne. pose proof (Zfloor_bound x) as Hf. pose proof (Zceil_bound x) as Hc.
  assert (H1 : (Zfloor x <= Zceil x)%Z) by (apply le_IZR; lra).
  assert (H2 : (Zceil x < Zfloor x + 2)%Z).
  { apply lt_IZR. rewrite plus_IZR. simpl. lra. }
  lia.
Qed.

(** The interpolated value lies between the elements at the floor and at the
    ceiling of the index. *)
Lemma interpolated_between (a : list R) (p : R) :
  StronglySorted Rle a -> a <> [] -> 0 <= p <= 1 ->
  let idx := p * (INR (length a) - 1) in
  nth (Z.to_nat (Zfloor idx)) a 0 <= interpolated_percentile a p
    <= nth (Z.to_nat (Zceil idx)) a 0.
Proof.
  intros Hs Ha Hp idx.
  assert (Hm : (0 < length a)%nat) by (destruct a; [congruence | simpl; lia]).
  destruct (percentile_index_bounds (length a) p Hm Hp) as [Hb Hhi].
  fold idx in Hb, Hhi. unfold interpolated_percentile. fold idx.
  assert (Hle : nth (Z.to_nat (Zfloor idx)) a 0 <= nth (Z.to_nat (Zceil idx)) a 0)
    by (apply sorted_nth; [exact Hs | lia]).
  destruct (Z.eqb_spec (Zfloor idx) (Zceil idx)) as [Heq | Hne].
  - rewrite Heq in *. lra.
  - pose proof (floor_ceil_gap idx Hne) as Hgap.
    pose proof (Zfloor_bound idx) as Hf.
    assert (Hc : IZR (Zceil idx) = IZR (Zfloor idx) + 1)
      by (rewrite Hgap, plus_IZR; reflexivity).
    rewrite Hc. split; nra.
Qed.

Lemma interpolated_monotone (a : list R) (p q : R) :
  StronglySorted Rle a -> a <> [] -> 0 <= p -> p <= q -> q <= 1 ->
  interpolated_percentile a p <= interpolated_percentile a q.
Proof.
  intros Hs Ha Hp Hpq Hq.
  assert (Hm : (0 < length a)%nat) by (destruct a; [congruence | simpl; lia]).
  assert (Hm1 : 1 <= INR (length a))
    by (replace 1 with (INR 1) by reflexivity; apply le_INR; lia).
  pose proof (interpolated_between a p Hs Ha ltac:(lra)) as Bp.
  pose proof (interpolated_between a q Hs Ha ltac:(lra)) as Bq.
  destruct (percentile_index_bounds (length a) p Hm ltac:(lra)) as [Hbp Hhp].
  destruct (percentile_index_bounds (length a) q Hm ltac:(lra)) as [Hbq Hhq].
  cbv zeta in Bp, Bq, Hbp, Hhp, Hbq, Hhq.
  set (ip := p * (INR (length a) - 1)) in *.
  set (iq := q * (INR (length a) - 1)) in *.
  assert (Hi : ip <= iq) by (unfold ip, iq; nra).
  destruct (Z_le_gt_dec (Zceil ip) (Zfloor iq)) as [Hsep | Hsame].
  - assert (nth (Z.to_nat (Zceil ip)) a 0 <= nth (Z.to_nat (Zfloor iq)) a 0)
      by (apply sorted_nth; [exact Hs | lia]).
    lra.
  - pose proof (Zfloor_le ip iq Hi) as Hfl.
    pose proof (Zceil_le ip iq Hi) as Hce.
    assert (Hnp : Zfloor ip <> Zceil ip) by lia.
    pose proof (floor_ceil_gap ip Hnp) as Gp.
    assert (Hnq : Zfloor iq <> Zceil iq).
    { intros E. assert (Zceil ip <= Zfloor iq)%Z by lia. lia. }
    pose proof (floor_ceil_gap iq Hnq) as Gq.
    assert (Elo : Zfloor iq = Zfloor ip) by lia.
    assert (Ehi : Zceil iq = Zceil ip) by lia.
    unfold interpolated_percentile. fold ip iq. rewrite Elo, Ehi.
    destruct (Z.eqb_spec (Zfloor ip) (Zceil ip)) as [E | _]; [contradiction |].
    assert (Hle : nth (Z.to_nat (Zfloor ip)) a 0 <= nth (Z.to_nat (Zceil ip)) a 0)
      by (apply sorted_nth; [exact Hs | lia]).
    assert (Hc : IZR (Zceil ip) = IZR (Zfloor ip) + 1)
      by (rewrite Gp, plus_IZR; reflexivity).
    rewrite Hc. nra.
Qed.

Lemma interpolated_zero (a : list R) :
  interpolated_percentile a 0 = nth 0 a 0.
Proof.
  unfold interpolated_percentile. rewrite Rmult_0_l.
  change 0 with (IZR 0) at 1 2 3 4. rewrite ZfloorZ.
  replace (Zceil (IZR 0)) with 0%Z by (symmetry; apply Zceil_eq; simpl; lra).
  reflexivity.
Qed.

Lemma interpolated_one (a : list R) :
  a <> [] -> interpolated_percentile a 1 = nth (length a - 1) a 0.
Proof.
  intros Ha. assert (Hm : (0 < length a)%nat) by (destruct a; [congruence | simpl; lia]).
  unfold interpolated_percentile. rewrite Rmult_1_l.
  replace (INR (length a) - 1) with (IZR (Z.of_nat (length a - 1))).
  - rewrite ZfloorZ.
    replace (Zceil (IZR (Z.of_nat (length a - 1)))) with (Z.of_nat (length a - 1))
      by (symmetry; apply Zceil_eq; lra).
    rewrite Z.eqb_refl. now rewrite Nat2Z.id.
  - rewrite <- INR_IZR_INZ. rewrite minus_INR by lia. reflexivity.
Qed.

(** X7: on a non-empty array of reals, [percentile(a, 0)] is the first
    element and [percentile(a, 1)] the last; on the empty array [percentile]
    never returns a finite number, whatever the fraction is. *)
Theorem percentile_endpoints :
  (forall a : list R,
      a <> [] ->
      percentile (map Fin a) (Fin 0) = Num (Fin (nth 0 a 0)) /\
      percentile (map Fin a) (Fin 1) = Num (Fin (nth (length a - 1) a 0))) /\
  (forall p : number, Number_isFinite (percentile [] p) = false).
Proof.
  split.
  - intros a Ha. split.
    + rewrite percentile_refines by (try assumption; lra).
      now rewrite interpolated_zero.
    + rewrite percentile_refines by (try assumption; lra).
      now rewrite interpolated_one.
  - intros p. unfold percentile.
    destruct (Math_floor (p * (array_length [] - Fin 1)) ===
              Math_ceil (p * (array_length [] - Fin 1)))%js.
    + now rewrite array_get_nil.
    + now rewrite !array_get_nil.
Qed.

Lemma percentile_endpoints_witness :
  [3; 1; 2] <> [] /\
  percentile (map Fin [3; 1; 2]) (Fin 0) = Num (Fin (nth 0 [3; 1; 2] 0)) /\
  percentile (map Fin [3; 1; 2]) (Fin 1)
    = Num (Fin (nth (length [3; 1; 2] - 1) [3; 1; 2] 0)).
Proof.
  assert (H : [3; 1; 2] <> []) by discriminate.
  split; [exact H |]. apply (proj1 percentile_endpoints). exact H.
Defined.



(** ** The statistics of an array with finite values *)

Lemma fold_left_reals (l : list R) (acc : R) :
  fold_left (fun s x => (s + x)%js) (map Fin l) (Fin acc) = Fin (acc + Rsum l).
Proof.
  revert acc. induction l as [| x l IH]; intros acc; cbn [map fold_left].
  - unfold Rsum. simpl. f_equal. lra.
  - js_simpl. rewrite IH. unfold Rsum. simpl. f_equal. lra.
Qed.

Lemma Rsum_perm (l l' : list R) : l ≡ₚ l' -> Rsum l = Rsum l'.
Proof.
  unfold Rsum. induction 1; simpl; lra.
Qed.

Lemma Rsum_bounds (l : list R) (L U : R) :
  Forall (fun x => L <= x <= U) l ->
  L * INR (length l) <= Rsum l <= U * INR (length l).
Proof.
  unfold Rsum. induction 1 as [| x l Hx Hl IH].
  - simpl. lra.
  - cbn [length fold_right]. rewrite S_INR. lra.
Qed.

(** The statistics of a non-empty array of reals, through its sorted
    permutation. *)
Lemma statistics_reals (l : list R) :
  l <> [] ->
  exists l',
    l ≡ₚ l' /\ StronglySorted Rle l' /\
    statistics (map Fin l) =
      {| mean := Num (Fin (Rsum l / INR (length l)));
         p5 := Num (Fin (interpolated_percentile l' 0.05));
         p95 := Num (Fin (interpolated_percentile l' 0.95)) |}.
Proof.
  intros Hl. destruct (sort_by_reals l) as (l' & Hsort & Hperm & Hs).
  exists l'. split; [exact Hperm |]. split; [exact Hs |].
  assert (Hlen : length l' = length l) by (now rewrite Hperm).
  assert (Hpos : (0 < length l)%nat) by (destruct l; [congruence | simpl; lia]).
  assert (Hne : l' <> []) by (intros ->; simpl in Hlen; lia).
  unfold statistics, array_length. rewrite length_map. js_simpl.
  replace (Reqb (INR (length l)) 0) with false.
  2:{ symmetry. apply Reqb_false. intros H.
      apply (proj2 (Reqb_true _ _)), (proj1 (INR_zero_iff _)) in H. lia. }
  rewrite Hsort, length_map, Hlen, fold_left_reals.
  rewrite js_div_Fin.
  2:{ intros H.
      apply (proj2 (Reqb_true _ _)), (proj1 (INR_zero_iff _)) in H. lia. }
  rewrite !percentile_refines by (try assumption; lra).
  rewrite Rplus_0_l, <- (Rsum_perm l l' Hperm). reflexivity.
Qed.



(** The statistics of a non-empty array of reals are finite, ordered, and
    within every pair of bounds of the array. *)
Lemma statistics_bounds (fl : list R) :
  fl <> [] ->
  exists m a b : R,
    statistics (map Fin fl) =
      {| mean := Num (Fin m); p5 := Num (Fin a); p95 := Num (Fin b) |} /\
    a <= b /\
    forall L U : R,
      Forall (fun x => L <= x <= U) fl ->
      L <= m <= U /\ L <= a /\ b <= U.
Proof.
  intros Hne.
  destruct (statistics_reals _ Hne) as (l' & Hperm & Hs & Hst).
  assert (Hpos : (0 < length fl)%nat)
    by (destruct fl; [congruence | simpl; lia]).
  assert (Hlen : length l' = length fl) by (now rewrite Hperm).
  assert (Hne' : l' <> []) by (intros ->; simpl in Hlen; lia).
  eexists _, _, _. split; [exact Hst |]. split.
  - apply interpolated_monotone; try assumption; lra.
  - intros L U Hall.
    assert (Hn : 0 < INR (length fl)) by (apply lt_0_INR; lia).
    pose proof (Rsum_bounds _ L U Hall) as [HL HU].
    assert (Hall' : Forall (fun x => L <= x <= U) l') by (now rewrite <- Hperm).
    rewrite Forall_forall in Hall'.
    assert (H0 : L <= nth 0 l' 0 <= U).
    { apply Hall'. apply list_elem_of_In, nth_In. lia. }
    assert (H1 : L <= nth (length l' - 1) l' 0 <= U).
    { apply Hall'. apply list_elem_of_In, nth_In. lia. }
    split; [| split].
    + split.
      * apply (Rmult_le_reg_r (INR (length fl))); [exact Hn |].
        unfold Rdiv. rewrite Rmult_assoc, Rinv_l by lra. lra.
      * apply (Rmult_le_reg_r (INR (length fl))); [exact Hn |].
        unfold Rdiv. rewrite Rmult_assoc, Rinv_l by lra. lra.
    + apply Rle_trans with (nth 0 l' 0); [lra |].
      rewrite <- interpolated_zero. apply interpolated_monotone; try assumption; lra.
    + apply Rle_trans with (nth (length l' - 1) l' 0); [| lra].
      rewrite <- interpolated_one by exact Hne'.
      apply interpolated_monotone; try assumption; lra.
Qed.



(** ** Validation of forms *)

Lemma js_lt_NaN_r (a : number) : (a <? NaN)%js = false.
Proof. now destruct a. Qed.

Lemma js_le_NaN_r (a : number) : (a <=? NaN)%js = false.
Proof. now destruct a. Qed.

Lemma with_field_cases (get : string -> number) (id x : string) (v : number) :
  with_field get id v x = v \/ with_field get id v x = get x.
Proof. unfold with_field. destruct (String.eqb x id); auto. Qed.

(** X11: a field that holds [NaN] fails no check of [readInputs]: replacing
    any field of a form by [NaN] never makes an accepted form rejected, and
    the form whose fields are all [NaN] is accepted. *)
Theorem readInputs_ignores_NaN :
  (forall (get : string -> number) (id : string),
      rejected (with_field get id NaN) -> rejected get) /\
  (exists p, readInputs (fun _ => NaN) = Return p).
Proof.
  split.
  - intros get id. unfold rejected, js_gt. intros H.
    repeat match type of H with
           | _ \/ _ => destruct H as [H | H]
           end;
      repeat match type of H with
             | context [with_field get id NaN ?x] =>
                 destruct (with_field_cases get id x NaN) as [E | E];
                 rewrite E in H; clear E
             end;
      try (rewrite ?js_lt_NaN_r, ?js_le_NaN_r in H; simpl in H; discriminate);
      tauto.
  - destruct (readInputs_returns (fun _ => NaN)) as (p & Hp & _).
    + unfold rejected, js_gt. simpl. intuition discriminate.
    + now exists p.
Qed.

Lemma readInputs_ignores_NaN_witness :
  let get := with_field (scenario_form (Fin 0)) "fleetSize" (Fin 0) in
  rejected (with_field get "samples" NaN) /\ rejected get.
Proof.
  intros get.
  assert (H : rejected (with_field get "samples" NaN)).
  { left. unfold get, with_field. simpl String.eqb. cbv iota.
    js_simpl. apply Rleb_true. lra. }
  split; [exact H |].
  exact (proj1 readInputs_ignores_NaN get "samples"%string H).
Defined.

(** X12: the parameters [readInputs] returns for a form whose fields are all
    finite, with a non-negative number of trips per day and an integer
    number of samples, satisfy every constraint of the data model: the
    percentages have become fractions of [0,1] with [min <= max], the fleet
    size and the trips-per-car bounds are positive, there are at least 1000
    samples and the sensor weight is in [0,1]. *)
Theorem readInputs_valid :
  forall (get : string -> number) (p : params) (k : nat),
    readInputs get = Return p ->
    (forall id, In id form_fields -> exists x, get id = Fin x) ->
    (exists x, get "tripsPerDay" = Fin x /\ 0 <= x) ->
    get "samples" = Fin (INR k) ->
    valid_params p.
Proof.
  intros get p k H Hfin (t & Ht & Ht0) Hk.
  assert (Hf : forall id, In id form_fields -> exists x, get id = Fin x)
    by exact Hfin.
  unfold form_fields in Hf.
  destruct (Hf "fleetSize") as [F HF]; [simpl; tauto |].
  destruct (Hf "sfShareMin") as [a Ha]; [simpl; tauto |].
  destruct (Hf "sfShareMax") as [b Hb]; [simpl; tauto |].
  destruct (Hf "utilMin") as [c Hc]; [simpl; tauto |].
  destruct (Hf "utilMax") as [d Hd]; [simpl; tauto |].
  destruct (Hf "tripsPerCarMin") as [e He]; [simpl; tauto |].
  destruct (Hf "tripsPerCarMax") as [g Hg]; [simpl; tauto |].
  destruct (Hf "sensorWeight") as [sw Hsw]; [simpl; tauto |].
  clear Hf.
  unfold readInputs, js_gt in H.
  rewrite HF, Ha, Hb, Hc, Hd, Ht, He, Hg, Hk, Hsw in H.
  cbn [js_lt js_le] in H.
  repeat match type of H with
         | context [Rleb ?x ?y] =>
             destruct (Rleb x y) eqn:?; cbn [orb] in H; try discriminate
         | context [Rltb ?x ?y] =>
             destruct (Rltb x y) eqn:?; cbn [orb] in H; try discriminate
         end.
  rewrite !js_div_Fin in H by lra.
  inversion H; subst p; clear H.
  repeat match goal with
         | E : Rleb _ _ = false |- _ => apply Rleb_false in E
         | E : Rltb _ _ = false |- _ => apply Rltb_false in E
         end.
  constructor; cbn [fleetSize sfMin sfMax utilMin utilMax tripsPerDay tpcMin
                    tpcMax samples sensorWeight].
  - exists F. split; [reflexivity | lra].
  - exists (a / 100), (b / 100). repeat split; try reflexivity; lra.
  - exists (c / 100), (d / 100). repeat split; try reflexivity; lra.
  - exists t. split; [reflexivity | lra].
  - exists e, g. repeat split; try reflexivity; lra.
  - exists k. split; [reflexivity |]. apply INR_le.
    replace (INR 1000) with 1000; [assumption |].
    rewrite INR_IZR_INZ. reflexivity.
  - exists sw. split; [reflexivity | lra].
Qed.

Lemma readInputs_valid_witness :
  let get := with_field (scenario_form (Fin 0)) "samples" (Fin (INR 2000)) in
  exists p, readInputs get = Return p /\ valid_params p.
Proof.
  intros get.
  assert (H2000 : INR 2000 = 2000) by (rewrite INR_IZR_INZ; reflexivity).
  assert (Hp : exists p, readInputs get = Return p).
  { unfold readInputs, get, with_field, scenario_form. simpl String.eqb.
    cbv iota. unfold js_gt. js_simpl. rewrite H2000. decide_cmp.
    eexists. reflexivity. }
  destruct Hp as [p Hp]. exists p. split; [exact Hp |].
  apply (readInputs_valid get p 2000 Hp).
  - intros id Hid. unfold form_fields in Hid. simpl in Hid.
    repeat (destruct Hid as [<- | Hid]; [eexists; reflexivity |]).
    contradiction.
  - exists 0. split; [reflexivity | lra].
  - reflexivity.
Defined.

(** ** The number of iterations of a run *)

Lemma loop_test_iterations (s : number) (k i : nat) :
  iterations s = Some k ->
  (Fin (INR i) <? s)%js = (Fin (INR i) <? Fin (INR k))%js.
Proof.
  destruct s as [x | | |]; cbn [iterations]; intros H; inversion H; subst k;
    clear H; js_simpl.
  - pose proof (Zceil_bound x) as Hc. pose proof (pos_INR i) as Hi.
    destruct (Rlt_dec (INR i) x) as [Hlt | Hge].
    + replace (Rltb (INR i) x) with true by (symmetry; now apply Rltb_true).
      symmetry. apply Rltb_true. apply lt_INR.
      assert (Hz : (Z.of_nat i < Zceil x)%Z).
      { apply lt_IZR. rewrite <- INR_IZR_INZ. lra. }
      lia.
    + replace (Rltb (INR i) x) with false by (symmetry; apply Rltb_false; lra).
      symmetry. apply Rltb_false. apply le_INR.
      destruct (Z_le_gt_dec (Zceil x) 0) as [Hneg | Hpos]; [lia |].
      assert (Hz : (Zceil x <= Z.of_nat i)%Z).
      { apply Z.lt_succ_r. apply lt_IZR. rewrite succ_IZR, <- INR_IZR_INZ. lra. }
      lia.
  - symmetry. apply Rltb_false. simpl. apply pos_INR.
  - symmetry. apply Rltb_false. simpl. apply pos_INR.
Qed.

(** The parameters [p] with the given number of samples. *)
Lemma sampling_loop_samples (rs : nat -> R) (p : params) (k : nat)
    (point : value) (fleet trip sensor blend : ref) (redraws : nat) :
  iterations (samples p) = Some k ->
  forall (fuel i : nat) (w : world),
    sampling_loop rs redraws p point fleet trip sensor blend fuel
      (Fin (INR i)) w =
    sampling_loop rs redraws
      (Params (fleetSize p) (sfMin p) (sfMax p) (utilMin p) (utilMax p)
         (tripsPerDay p) (tpcMin p) (tpcMax p) (Fin (INR k)) (sensorWeight p))
      point fleet trip sensor blend fuel (Fin (INR i)) w.
Proof.
  intros Hk fuel. induction fuel as [| fuel IH]; intros i w; cbn [sampling_loop];
    cbn [samples]; rewrite (loop_test_iterations _ k i Hk).
  - reflexivity.
  - destruct (Fin (INR i) <? Fin (INR k))%js; [| reflexivity].
    unfold sampleFleet, sampleTrip. cbn [fleetSize sfMin sfMax utilMin utilMax
      tripsPerDay tpcMin tpcMax sensorWeight].
    unfold mbind.
    repeat match goal with
           | |- match ?c with _ => _ end = match ?c with _ => _ end =>
               destruct c as [[? ?] |]; [| reflexivity]
           end.
    replace (Fin (INR i) + Fin 1)%js with (Fin (INR (S i)))
      by (rewrite S_INR; reflexivity).
    apply IH.
Qed.

Lemma runMonteCarlo_samples (rs : nat -> R) (p : params) (k : nat) :
  iterations (samples p) = Some k ->
  forall (fuel : nat) (w : world),
    runMonteCarlo rs fuel p w =
    runMonteCarlo rs fuel
      (Params (fleetSize p) (sfMin p) (sfMax p) (utilMin p) (utilMax p)
         (tripsPerDay p) (tpcMin p) (tpcMax p) (Fin (INR k)) (sensorWeight p))
      w.
Proof.
  intros Hk fuel w. unfold runMonteCarlo, mbind at 1 2 3 4 5 6.
  unfold array_new, read_lastSensorCitywideEstimate.
  symmetry. unfold mbind at 1 2 3 4 5 6. symmetry.
  change (Fin 0) with (Fin (INR 0)).
  now rewrite (sampling_loop_samples rs p k _ _ _ _ _ _ Hk).
Qed.

(** X13: a run makes as many iterations as the least natural number that is
    not below [samples]: [ceil(samples)] for a positive finite [samples]
    (1001 for 1000.5), none when [samples] is negative, [-Infinity] or
    [NaN]; the four arrays it returns have that many elements. *)
Theorem runMonteCarlo_iterations :
  forall (rs : nat -> R) (p : params) (k : nat) (w : world),
    random_source rs ->
    iterations (samples p) = Some k ->
    exists (fuel0 : nat) (res : results) (w' : world)
           (lf lt ls lb : list number),
      (forall fuel, (fuel0 <= fuel)%nat ->
                    runMonteCarlo rs fuel p w = Some (res, w')) /\
      arrays w' !! fleetSamples res = Some lf /\
      arrays w' !! tripSamples res = Some lt /\
      arrays w' !! sensorSamples res = Some ls /\
      arrays w' !! blendedSamples res = Some lb /\
      length lf = k /\ length lt = k /\ length ls = k /\ length lb = k.
Proof.
  intros rs p k w Hrs Hk.
  destruct (runMonteCarlo_run rs
              (Params (fleetSize p) (sfMin p) (sfMax p) (utilMin p) (utilMax p)
                 (tripsPerDay p) (tpcMin p) (tpcMax p) (Fin (INR k))
                 (sensorWeight p)) k w Hrs eq_refl)
    as (fuel0 & res & w' & lf & lt & ls & lb & Hrun & _ & Hf & Ht & Hs & Hb
        & Lf & Lt & Ls & Lb & _).
  exists fuel0, res, w', lf, lt, ls, lb.
  split; [| repeat split; assumption].
  intros fuel Hfuel. rewrite (runMonteCarlo_samples rs p k Hk). now apply Hrun.
Qed.

Lemma runMonteCarlo_iterations_witness :
  let p := Params (Fin 1500) (Fin 0.1) (Fin 0.1) (Fin 0.5) (Fin 0.5) (Fin 0)
             (Fin 10) (Fin 10) (Fin 1000.5) (Fin 0) in
  let w := World [] 0 Null in
  random_source (fun _ => 0.5) /\
  iterations (samples p) = Some 1001%nat /\
  exists (fuel0 : nat) (res : results) (w' : world)
         (lf lt ls lb : list number),
    (forall fuel, (fuel0 <= fuel)%nat ->
                  runMonteCarlo (fun _ => 0.5) fuel p w = Some (res, w')) /\
    arrays w' !! fleetSamples res = Some lf /\
    arrays w' !! tripSamples res = Some lt /\
    arrays w' !! sensorSamples res = Some ls /\
    arrays w' !! blendedSamples res = Some lb /\
    length lf = 1001%nat /\ length lt = 1001%nat /\
    length ls = 1001%nat /\ length lb = 1001%nat.
Proof.
  intros p w.
  assert (Hk : iterations (samples p) = Some 1001%nat).
  { cbn [iterations samples p].
    replace (Zceil 1000.5) with 1001%Z by (symmetry; apply Zceil_eq; simpl; lra).
    reflexivity. }
  split; [exact random_source_half |]. split; [exact Hk |].
  apply runMonteCarlo_iterations; [exact random_source_half | exact Hk].
Defined.






(** ** The four arrays of a run, element by element *)

Section Trace.

Variable rs : nat -> R.
Hypothesis rs_source : random_source rs.
Variable p : params.
Variable point : value.
Variable k : nat.
Hypothesis samples_k : samples p = Fin (INR k).
Variables fleet trip sensor blend : ref.
Hypothesis distinct : NoDup [fleet; trip; sensor; blend].

(** The loop appends to the four arrays the samples of its iterations, in
    order and side by side, and writes to no other array. *)
Lemma sampling_loop_trace (n : nat) :
  forall (i : nat) (w : world) (lf lt ls lb : list number),
    (i + n = k)%nat ->
    arrays w !! fleet = Some lf -> arrays w !! trip = Some lt ->
    arrays w !! sensor = Some ls -> arrays w !! blend = Some lb ->
    exists (fuel0 : nat) (w' : world) (tr : list (number * number * number)),
      (forall redraws fuel,
          (fuel0 <= redraws)%nat -> (n <= fuel)%nat ->
          sampling_loop rs redraws p point fleet trip sensor blend fuel
            (Fin (INR i)) w = Some (tt, w')) /\
      length tr = n /\
      Forall (sampled rs p point) tr /\
      arrays w' !! fleet = Some (lf ++ map (fun x => x.1.1) tr) /\
      arrays w' !! trip = Some (lt ++ map (fun x => x.1.2) tr) /\
      arrays w' !! sensor = Some (ls ++ map (fun x => x.2) tr) /\
      arrays w' !! blend = Some (lb ++ map (blend_of p) tr) /\
      (forall r, r ∉ [fleet; trip; sensor; blend] ->
                 arrays w' !! r = arrays w !! r) /\
      lastSensorCitywideEstimate w' = lastSensorCitywideEstimate w /\
      (drawn w + 2 * n <= drawn w')%nat.
Proof.
  assert (Hft : fleet <> trip /\ fleet <> sensor /\ fleet <> blend /\
                trip <> sensor /\ trip <> blend /\ sensor <> blend).
  { apply NoDup_cons in distinct as [H1 H2].
    apply NoDup_cons in H2 as [H2 H3]. apply NoDup_cons in H3 as [H3 _].
    repeat setoid_rewrite elem_of_cons in H1.
    repeat setoid_rewrite elem_of_cons in H2.
    repeat setoid_rewrite elem_of_cons in H3. intuition. }
  destruct Hft as (Hft & Hfs & Hfb & Hts & Htb & Hsb).
  induction n as [| n IH]; intros i w lf lt ls lb Hi Hf Ht Hs Hb.
  - exists 0%nat, w, []. cbn [map]. rewrite !app_nil_r. replace i with k by lia.
    split; [intros; now apply sampling_loop_exit |].
    repeat split; try assumption; try constructor. lia.
  - destruct (sampleFleet_run rs rs_source p w) as (f & Hrf & _).
    destruct (sampleTrip_run rs rs_source p (advance (advance w)))
      as (t & w2 & Hrt & Hd2 & _).
    destruct (sampleSensor_total rs rs_source point w2)
      as (fuel1 & s & w3 & _ & Hd3 & Hrs).
    assert (Hd : draws w w3).
    { eapply draws_trans; [| exact Hd3].
      eapply draws_trans; [| exact Hd2].
      eapply draws_trans; apply draws_advance. }
    assert (Hdr : (drawn w + 2 <= drawn w3)%nat).
    { destruct Hd2 as (_ & _ & D2). destruct Hd3 as (_ & _ & D3).
      cbn [drawn advance] in D2. lia. }
    set (b := blendSamples f t s (sensorWeight p)).
    set (w4 := store fleet (lf ++ [f]) w3).
    set (w5 := store trip (lt ++ [t]) w4).
    set (w6 := store sensor (ls ++ [s]) w5).
    set (w7 := store blend (lb ++ [b]) w6).
    assert (Hf3 : arrays w3 !! fleet = Some lf)
      by (now rewrite (draws_lookup w w3)).
    assert (Ht4 : arrays w4 !! trip = Some lt).
    { unfold w4. rewrite store_lookup_other by exact Hft.
      now rewrite (draws_lookup w w3). }
    assert (Hs5 : arrays w5 !! sensor = Some ls).
    { unfold w5, w4. rewrite !store_lookup_other by auto.
      now rewrite (draws_lookup w w3). }
    assert (Hb6 : arrays w6 !! blend = Some lb).
    { unfold w6, w5, w4. rewrite !store_lookup_other by auto.
      now rewrite (draws_lookup w w3). }
    assert (Hf7 : arrays w7 !! fleet = Some (lf ++ [f])).
    { unfold w7, w6, w5. rewrite !store_lookup_other by auto.
      eapply store_lookup_same. exact Hf3. }
    assert (Ht7 : arrays w7 !! trip = Some (lt ++ [t])).
    { unfold w7, w6. rewrite !store_lookup_other by auto.
      eapply store_lookup_same. exact Ht4. }
    assert (Hs7 : arrays w7 !! sensor = Some (ls ++ [s])).
    { unfold w7. rewrite !store_lookup_other by auto.
      eapply store_lookup_same. exact Hs5. }
    assert (Hb7 : arrays w7 !! blend = Some (lb ++ [b]))
      by (eapply store_lookup_same; exact Hb6).
    destruct (IH (S i) w7 _ _ _ _ ltac:(lia) Hf7 Ht7 Hs7 Hb7)
      as (fuel0 & w' & tr & Hloop & Ltr & Hall & Hf' & Ht' & Hs' & Hb'
          & Hother & Hlast & Hdrawn).
    exists (Nat.max fuel1 fuel0), w', ((f, t, s) :: tr).
    split; [| split; [| split; [| split; [| split; [| split; [| split;
      [| split; [| split]]]]]]]].
    + intros redraws [| fuel] Hre Hfu; [lia |].
      cbn [sampling_loop].
      replace (Fin (INR i) <? samples p)%js with true
        by (symmetry; rewrite samples_k; js_simpl; apply Rltb_true;
            apply lt_INR; lia).
      run Hrf. run Hrt. run (Hrs redraws ltac:(lia)).
      fold b.
      run (array_push_run _ f _ _ Hf3). fold w4.
      run (array_push_run _ t _ _ Ht4). fold w5.
      run (array_push_run _ s _ _ Hs5). fold w6.
      run (array_push_run _ b _ _ Hb6). fold w7.
      replace (Fin (INR i) + Fin 1)%js with (Fin (INR (S i)))
        by (rewrite S_INR; reflexivity).
      apply Hloop; lia.
    + simpl. now rewrite Ltr.
    + constructor; [| exact Hall].
      exists w, (advance (advance w)), w2, w3, (Nat.max fuel1 fuel0).
      cbn [fst snd]. split; [exact Hrf |]. split; [exact Hrt |].
      apply Hrs. lia.
    + rewrite Hf'. cbn [map fst snd]. now rewrite <- app_assoc.
    + rewrite Ht'. cbn [map fst snd]. now rewrite <- app_assoc.
    + rewrite Hs'. cbn [map fst snd]. now rewrite <- app_assoc.
    + rewrite Hb'. cbn [map]. now rewrite <- app_assoc.
    + intros r Hr. rewrite Hother by exact Hr.
      repeat setoid_rewrite elem_of_cons in Hr.
      unfold w7, w6, w5, w4. rewrite !store_lookup_other by intuition.
      now apply draws_lookup.
    + rewrite Hlast. unfold w7, w6, w5, w4. simpl.
      now destruct Hd as (_ & -> & _).
    + assert (drawn w7 = drawn w3) by reflexivity. lia.
Qed.

End Trace.

Lemma lookup_map {A B} (f : A -> B) (l : list A) (i : nat) :
  map f l !! i = option_map f (l !! i).
Proof.
  revert i. induction l as [| x l IH]; intros [| i]; simpl; auto.
Qed.

(** A run, with the samples of its iterations: the four arrays of the
    results are new arrays that hold the fleet, trip and sensor samples and
    their blends side by side; every array that existed before the run is
    left as it was. *)
Lemma runMonteCarlo_trace (rs : nat -> R) (p : params) (k : nat) (w : world) :
  random_source rs ->
  samples p = Fin (INR k) ->
  exists (fuel0 : nat) (res : results) (w' : world)
         (tr : list (number * number * number)),
    (forall fuel, (fuel0 <= fuel)%nat ->
                  runMonteCarlo rs fuel p w = Some (res, w')) /\
    length tr = k /\
    Forall (sampled rs p (lastSensorCitywideEstimate w)) tr /\
    arrays w' !! fleetSamples res = Some (map (fun x => x.1.1) tr) /\
    arrays w' !! tripSamples res = Some (map (fun x => x.1.2) tr) /\
    arrays w' !! sensorSamples res = Some (map (fun x => x.2) tr) /\
    arrays w' !! blendedSamples res = Some (map (blend_of p) tr) /\
    fleetStats res
      = statistics (List.filter is_finite (map (fun x => x.1.1) tr)) /\
    tripStats res
      = statistics (List.filter is_finite (map (fun x => x.1.2) tr)) /\
    sensorStats res
      = statistics (List.filter is_finite (map (fun x => x.2) tr)) /\
    blendedStats res
      = statistics (List.filter is_finite (map (blend_of p) tr)) /\
    (forall r l, arrays w !! r = Some l -> arrays w' !! r = Some l) /\
    (length (arrays w) <= fleetSamples res)%nat /\
    (length (arrays w) <= tripSamples res)%nat /\
    (length (arrays w) <= sensorSamples res)%nat /\
    (length (arrays w) <= blendedSamples res)%nat /\
    lastSensorCitywideEstimate w' = lastSensorCitywideEstimate w /\
    (drawn w + 2 * k <= drawn w')%nat.
Proof.
  intros Hrs Hk.
  set (n0 := length (arrays w)).
  set (w1 := alloc [] w). set (w2 := alloc [] w1).
  set (w3 := alloc [] w2). set (w4 := alloc [] w3).
  assert (L1 : length (arrays w1) = S n0) by apply alloc_length.
  assert (L2 : length (arrays w2) = S (S n0))
    by (unfold w2; now rewrite alloc_length, L1).
  assert (L3 : length (arrays w3) = S (S (S n0)))
    by (unfold w3; now rewrite alloc_length, L2).
  assert (N1 : array_new [] w = Some (n0, w1)) by reflexivity.
  assert (N2 : array_new [] w1 = Some (S n0, w2))
    by (unfold array_new; now rewrite L1).
  assert (N3 : array_new [] w2 = Some (S (S n0), w3))
    by (unfold array_new; now rewrite L2).
  assert (N4 : array_new [] w3 = Some (S (S (S n0)), w4))
    by (unfold array_new; now rewrite L3).
  assert (Hf : arrays w4 !! n0 = Some []).
  { do 3 apply alloc_lookup_old. apply alloc_lookup_new. }
  assert (Ht : arrays w4 !! S n0 = Some []).
  { do 2 apply alloc_lookup_old. rewrite <- L1. apply alloc_lookup_new. }
  assert (Hs : arrays w4 !! S (S n0) = Some []).
  { apply alloc_lookup_old. rewrite <- L2. apply alloc_lookup_new. }
  assert (Hb : arrays w4 !! S (S (S n0)) = Some []).
  { rewrite <- L3. apply alloc_lookup_new. }
  assert (Hp : read_lastSensorCitywideEstimate w4
               = Some (lastSensorCitywideEstimate w, w4)) by reflexivity.
  destruct (sampling_loop_trace rs Hrs p (lastSensorCitywideEstimate w) k Hk
              _ _ _ _ (NoDup_consecutive n0) k 0%nat w4 [] [] [] []
              ltac:(lia) Hf Ht Hs Hb)
    as (fuel0 & w5 & tr & Hloop & Ltr & Hall & Hf5 & Ht5 & Hs5 & Hb5
        & Hother & Hlast & Hdrawn).
  rewrite app_nil_l in Hf5, Ht5, Hs5, Hb5.
  destruct (summarize_run _ w5 _ Hf5) as (w6 & S6 & F6).
  destruct (summarize_run _ w6 _ (proj1 F6 _ _ Ht5)) as (w7 & S7 & F7).
  destruct (summarize_run _ w7 _ (proj1 F7 _ _ (proj1 F6 _ _ Hs5)))
    as (w8 & S8 & F8).
  destruct (summarize_run _ w8 _
              (proj1 F8 _ _ (proj1 F7 _ _ (proj1 F6 _ _ Hb5))))
    as (w9 & S9 & F9).
  pose proof (frame_trans _ _ _ F6 (frame_trans _ _ _ F7
                (frame_trans _ _ _ F8 F9))) as (F & FD & FS).
  eexists (Nat.max fuel0 k), _, w9, tr.
  split.
  - intros fuel Hfuel. unfold runMonteCarlo.
    run N1. run N2. run N3. run N4. run Hp.
    run (Hloop fuel fuel ltac:(lia) ltac:(lia)).
    run S6. run S7. run S8. run S9. reflexivity.
  - cbn [fleetSamples tripSamples sensorSamples blendedSamples
         fleetStats tripStats sensorStats blendedStats].
    repeat split; auto; try lia.
    + intros r l Hr. apply F. rewrite Hother.
      * now do 4 apply alloc_lookup_old.
      * apply lookup_lt_Some in Hr. fold n0 in Hr.
        repeat setoid_rewrite elem_of_cons. rewrite elem_of_nil. lia.
    + now rewrite FS, Hlast.
    + rewrite FD. assert (drawn w4 = drawn w) by reflexivity. lia.
Qed.

(** X16: the four arrays of a run are parallel: at every position the
    blended array holds the blend, by [blendSamples] with the sensor weight
    of the parameters, of the fleet, trip and sensor samples that the three
    other arrays hold at that position. *)
Theorem runMonteCarlo_parallel :
  forall (rs : nat -> R) (p : params) (k : nat) (w : world),
    random_source rs ->
    samples p = Fin (INR k) ->
    exists (fuel0 : nat) (res : results) (w' : world)
           (lf lt ls lb : list number),
      (forall fuel, (fuel0 <= fuel)%nat ->
                    runMonteCarlo rs fuel p w = Some (res, w')) /\
      arrays w' !! fleetSamples res = Some lf /\
      arrays w' !! tripSamples res = Some lt /\
      arrays w' !! sensorSamples res = Some ls /\
      arrays w' !! blendedSamples res = Some lb /\
      forall i, (i < k)%nat ->
        exists f t s,
          lf !! i = Some f /\ lt !! i = Some t /\ ls !! i = Some s /\
          lb !! i = Some (blendSamples f t s (sensorWeight p)).
Proof.
  intros rs p k w Hrs Hk.
  destruct (runMonteCarlo_trace rs p k w Hrs Hk)
    as (fuel0 & res & w' & tr & Hrun & Ltr & _ & Hf & Ht & Hs & Hb & _).
  eexists fuel0, res, w', _, _, _, _.
  split; [exact Hrun |]. split; [exact Hf |]. split; [exact Ht |].
  split; [exact Hs |]. split; [exact Hb |].
  intros i Hi. destruct (lookup_lt_is_Some_2 tr i) as [[[f t] s] Hx]; [lia |].
  exists f, t, s. rewrite !lookup_map, Hx. repeat split.
Qed.

Lemma runMonteCarlo_parallel_witness :
  let p := Params (Fin 1500) (Fin 0.1) (Fin 0.1) (Fin 0.5) (Fin 0.5) (Fin 0)
             (Fin 10) (Fin 10) (Fin (INR 1000)) (Fin 0.5) in
  let w := World [] 0 (Num (Fin 40)) in
  random_source (fun _ => 0.5) /\
  samples p = Fin (INR 1000) /\
  exists (fuel0 : nat) (res : results) (w' : world)
         (lf lt ls lb : list number),
    (forall fuel, (fuel0 <= fuel)%nat ->
                  runMonteCarlo (fun _ => 0.5) fuel p w = Some (res, w')) /\
    arrays w' !! fleetSamples res = Some lf /\
    arrays w' !! tripSamples res = Some lt /\
    arrays w' !! sensorSamples res = Some ls /\
    arrays w' !! blendedSamples res = Some lb /\
    forall i, (i < 1000)%nat ->
      exists f t s,
        lf !! i = Some f /\ lt !! i = Some t /\ ls !! i = Some s /\
        lb !! i = Some (blendSamples f t s (sensorWeight p)).
Proof.
  intros p w. split; [exact random_source_half |]. split; [reflexivity |].
  apply runMonteCarlo_parallel; [exact random_source_half | reflexivity].
Defined.

(** X17: a run owns its arrays: the four arrays of its results are new, the
    arrays that existed before it (those of an earlier run among them) hold
    afterwards what they held before, the sensor estimate is not changed,
    and at least two random draws are consumed per iteration. *)
Theorem runMonteCarlo_frame :
  forall (rs : nat -> R) (p : params) (k : nat) (w : world),
    random_source rs ->
    samples p = Fin (INR k) ->
    exists (fuel0 : nat) (res : results) (w' : world),
      (forall fuel, (fuel0 <= fuel)%nat ->
                    runMonteCarlo rs fuel p w = Some (res, w')) /\
      (forall r l, arrays w !! r = Some l -> arrays w' !! r = Some l) /\
      arrays w !! fleetSamples res = None /\
      arrays w !! tripSamples res = None /\
      arrays w !! sensorSamples res = None /\
      arrays w !! blendedSamples res = None /\
      lastSensorCitywideEstimate w' = lastSensorCitywideEstimate w /\
      (drawn w + 2 * k <= drawn w')%nat.
Proof.
  intros rs p k w Hrs Hk.
  destruct (runMonteCarlo_trace rs p k w Hrs Hk)
    as (fuel0 & res & w' & tr & Hrun & _ & _ & _ & _ & _ & _ & _ & _ & _ & _
        & Hframe & Nf & Nt & Ns & Nb & Hlast & Hdrawn).
  exists fuel0, res, w'. split; [exact Hrun |]. split; [exact Hframe |].
  repeat split; try assumption; now apply lookup_ge_None.
Qed.

Lemma runMonteCarlo_frame_witness :
  let p := Params (Fin 1500) (Fin 0.1) (Fin 0.1) (Fin 0.5) (Fin 0.5) (Fin 0)
             (Fin 10) (Fin 10) (Fin (INR 1000)) (Fin 0.5) in
  let w := World [[Fin 1; Fin 2]] 7 (Num (Fin 40)) in
  random_source (fun _ => 0.5) /\
  samples p = Fin (INR 1000) /\
  exists (fuel0 : nat) (res : results) (w' : world),
    (forall fuel, (fuel0 <= fuel)%nat ->
                  runMonteCarlo (fun _ => 0.5) fuel p w = Some (res, w')) /\
    (forall r l, arrays w !! r = Some l -> arrays w' !! r = Some l) /\
    arrays w !! fleetSamples res = None /\
    arrays w !! tripSamples res = None /\
    arrays w !! sensorSamples res = None /\
    arrays w !! blendedSamples res = None /\
    lastSensorCitywideEstimate w' = lastSensorCitywideEstimate w /\
    (drawn w + 2 * 1000 <= drawn w')%nat.
Proof.
  intros p w. split; [exact random_source_half |]. split; [reflexivity |].
  apply runMonteCarlo_frame; [exact random_source_half | reflexivity].
Defined.

(** ** Runs without sensor evidence, without demand, with a sensor point *)

Lemma statistics_constant (c : R) (n : nat) :
  (0 < n)%nat ->
  statistics (replicate n (Fin c)) =
    {| mean := Num (Fin c); p5 := Num (Fin c); p95 := Num (Fin c) |}.
Proof.
  intros Hn.
  assert (Hmap : replicate n (Fin c) = map Fin (replicate n c)).
  { clear Hn. induction n as [| n IH]; simpl; [reflexivity | now rewrite IH]. }
  assert (Hne : replicate n c <> []) by (destruct n; [lia | discriminate]).
  destruct (statistics_bounds _ Hne) as (m & a & b & Hst & Hab & Hbounds).
  destruct (Hbounds c c) as (Hm & Ha & Hb).
  { apply Forall_forall. intros x Hx. apply elem_of_replicate in Hx as [-> _]. lra. }
  rewrite Hmap, Hst.
  replace m with c by lra. replace a with c by lra. replace b with c by lra.
  reflexivity.
Qed.

Lemma map_constant {A B} (f : A -> B) (c : B) (l : list A) :
  Forall (fun x => f x = c) l -> map f l = replicate (length l) c.
Proof.
  induction 1 as [| x l Hx Hl IH]; simpl; [reflexivity | now rewrite Hx, IH].
Qed.

Lemma filter_replicate_NaN (n : nat) :
  List.filter is_finite (replicate n NaN) = [].
Proof. induction n as [| n IH]; simpl; [reflexivity | exact IH]. Qed.

Lemma filter_replicate_Fin (n : nat) (c : R) :
  List.filter is_finite (replicate n (Fin c)) = replicate n (Fin c).
Proof. induction n as [| n IH]; simpl; [reflexivity | now rewrite IH]. Qed.

(** X18: without a usable sensor estimate (the estimate is [null], zero,
    negative or not finite) every element of the sensor array of a run is
    [NaN], the sensor statistics are the undefined ones, and every blended
    sample is exactly [0.5*fleet + 0.5*trip] of the samples at its position,
    whatever the sensor weight is. *)
Theorem runMonteCarlo_without_sensor :
  forall (rs : nat -> R) (p : params) (k : nat) (w : world),
    random_source rs ->
    samples p = Fin (INR k) ->
    ~ finite_positive (lastSensorCitywideEstimate w) ->
    exists (fuel0 : nat) (res : results) (w' : world)
           (lf lt lb : list number),
      (forall fuel, (fuel0 <= fuel)%nat ->
                    runMonteCarlo rs fuel p w = Some (res, w')) /\
      arrays w' !! sensorSamples res = Some (replicate k NaN) /\
      sensorStats res = {| mean := Num NaN; p5 := Num NaN; p95 := Num NaN |} /\
      arrays w' !! fleetSamples res = Some lf /\
      arrays w' !! tripSamples res = Some lt /\
      arrays w' !! blendedSamples res = Some lb /\
      forall i, (i < k)%nat ->
        exists f t,
          lf !! i = Some f /\ lt !! i = Some t /\
          lb !! i = Some (Fin 0.5 * f + Fin 0.5 * t)%js.
Proof.
  intros rs p k w Hrs Hk Habsent.
  destruct (runMonteCarlo_trace rs p k w Hrs Hk)
    as (fuel0 & res & w' & tr & Hrun & Ltr & Hall & Hf & Ht & Hs & Hb
        & _ & _ & Hss & _).
  assert (HNaN : Forall (fun x : number * number * number => x.2 = NaN) tr).
  { eapply Forall_impl; [exact Hall |]. intros x (w0 & w1 & w2 & w3 & fuel & _ & _ & H).
    rewrite (sampleSensor_absent rs fuel _ w2 Habsent) in H. now inversion H. }
  rewrite (map_constant (fun x : number * number * number => x.2) NaN tr HNaN),
    Ltr in Hs, Hss.
  rewrite filter_replicate_NaN in Hss.
  eexists fuel0, res, w', _, _, _.
  split; [exact Hrun |]. split; [exact Hs |].
  split; [rewrite Hss; now apply statistics_no_finite |].
  split; [exact Hf |]. split; [exact Ht |]. split; [exact Hb |].
  intros i Hi. destruct (lookup_lt_is_Some_2 tr i) as [[[f t] s] Hx]; [lia |].
  exists f, t. rewrite !lookup_map, Hx. cbn [option_map fst snd].
  split; [reflexivity |]. split; [reflexivity |].
  rewrite Forall_forall in HNaN.
  assert (Es : s = NaN).
  { apply (HNaN (f, t, s)). apply list_elem_of_lookup. now exists i. }
  subst s. reflexivity.
Qed.

Lemma runMonteCarlo_without_sensor_witness :
  let p := Params (Fin 1500) (Fin 0.1) (Fin 0.1) (Fin 0.5) (Fin 0.5) (Fin 0)
             (Fin 10) (Fin 10) (Fin (INR 1000)) (Fin 0.5) in
  let w := World [] 0 Null in
  random_source (fun _ => 0.5) /\
  samples p = Fin (INR 1000) /\
  ~ finite_positive (lastSensorCitywideEstimate w) /\
  exists (fuel0 : nat) (res : results) (w' : world)
         (lf lt lb : list number),
    (forall fuel, (fuel0 <= fuel)%nat ->
                  runMonteCarlo (fun _ => 0.5) fuel p w = Some (res, w')) /\
    arrays w' !! sensorSamples res = Some (replicate 1000 NaN) /\
    sensorStats res = {| mean := Num NaN; p5 := Num NaN; p95 := Num NaN |} /\
    arrays w' !! fleetSamples res = Some lf /\
    arrays w' !! tripSamples res = Some lt /\
    arrays w' !! blendedSamples res = Some lb /\
    forall i, (i < 1000)%nat ->
      exists f t,
        lf !! i = Some f /\ lt !! i = Some t /\
        lb !! i = Some (Fin 0.5 * f + Fin 0.5 * t)%js.
Proof.
  intros p w.
  assert (H : ~ finite_positive (lastSensorCitywideEstimate w))
    by (intros (x & Hx & _); discriminate).
  split; [exact random_source_half |]. split; [reflexivity |].
  split; [exact H |].
  apply runMonteCarlo_without_sensor;
    [exact random_source_half | reflexivity | exact H].
Defined.

(** X19: without demand ([tripsPerDay <= 0]) every element of the trip array
    of a run is exactly 0 and, when the run has at least one iteration, the
    mean, p5 and p95 of the trip statistics are exactly 0. *)
Theorem runMonteCarlo_without_demand :
  forall (rs : nat -> R) (p : params) (k : nat) (w : world),
    random_source rs ->
    samples p = Fin (INR k) ->
    (tripsPerDay p <=? Fin 0)%js = true ->
    exists (fuel0 : nat) (res : results) (w' : world),
      (forall fuel, (fuel0 <= fuel)%nat ->
                    runMonteCarlo rs fuel p w = Some (res, w')) /\
      arrays w' !! tripSamples res = Some (replicate k (Fin 0)) /\
      ((0 < k)%nat ->
       tripStats res =
         {| mean := Num (Fin 0); p5 := Num (Fin 0); p95 := Num (Fin 0) |}).
Proof.
  intros rs p k w Hrs Hk Hzero.
  destruct (runMonteCarlo_trace rs p k w Hrs Hk)
    as (fuel0 & res & w' & tr & Hrun & Ltr & Hall & _ & Ht & _ & _
        & _ & Hts & _).
  assert (H0 : Forall (fun x : number * number * number => x.1.2 = Fin 0) tr).
  { eapply Forall_impl; [exact Hall |]. intros x (w0 & w1 & w2 & w3 & fuel & _ & H & _).
    rewrite (sampleTrip_zero rs p w1 Hzero) in H. now inversion H. }
  rewrite (map_constant (fun x : number * number * number => x.1.2) (Fin 0) tr H0),
    Ltr in Ht, Hts.
  rewrite filter_replicate_Fin in Hts.
  exists fuel0, res, w'. split; [exact Hrun |]. split; [exact Ht |].
  intros Hpos. rewrite Hts. now apply statistics_constant.
Qed.

Lemma runMonteCarlo_without_demand_witness :
  let p := Params (Fin 1500) (Fin 0.1) (Fin 0.1) (Fin 0.5) (Fin 0.5) (Fin (-5))
             (Fin 10) (Fin 10) (Fin (INR 1000)) (Fin 0.5) in
  let w := World [] 0 Null in
  random_source (fun _ => 0.5) /\
  samples p = Fin (INR 1000) /\
  (tripsPerDay p <=? Fin 0)%js = true /\
  exists (fuel0 : nat) (res : results) (w' : world),
    (forall fuel, (fuel0 <= fuel)%nat ->
                  runMonteCarlo (fun _ => 0.5) fuel p w = Some (res, w')) /\
    arrays w' !! tripSamples res = Some (replicate 1000 (Fin 0)) /\
    ((0 < 1000)%nat ->
     tripStats res =
       {| mean := Num (Fin 0); p5 := Num (Fin 0); p95 := Num (Fin 0) |}).
Proof.
  intros p w.
  assert (H : (tripsPerDay p <=? Fin 0)%js = true)
    by (cbn [tripsPerDay p js_le]; apply Rleb_true; lra).
  split; [exact random_source_half |]. split; [reflexivity |].
  split; [exact H |].
  apply runMonteCarlo_without_demand;
    [exact random_source_half | reflexivity | exact H].
Defined.








(** ** The histogram *)

















(** ** The display of the statistics *)








(** ** The detector *)




Lemma is_white_region (data data' : list number) (y0 y x : nat) :
  (forall i, (y0 * 1280 <= i)%nat -> data !! i = data' !! i) ->
  (y0 <= y)%nat ->
  is_white data y x = is_white data' y x.
Proof.
  intros Hagree Hy. unfold is_white, channel.
  rewrite !(Hagree _) by lia. reflexivity.
Qed.

(** X26: the detector looks at the lower rows only: two pixel arrays that
    agree from row [floor(h * 0.4)] on (index [1280 * floor(h * 0.4)] and
    beyond) give the same count, whatever the upper 40 percent of the image
    shows. *)
Theorem detectWaymoHeuristic_region :
  forall (h : nat) (data data' : list number),
    (forall i, (first_row h * 1280 <= i)%nat -> data !! i = data' !! i) ->
    detectWaymoHeuristic h data = detectWaymoHeuristic h data'.
Proof.
  intros h data data' Hagree. unfold detectWaymoHeuristic.
  replace (white_pixels h data') with (white_pixels h data); [reflexivity |].
  unfold white_pixels. f_equal. apply map_ext_in. intros y Hy.
  apply in_seq in Hy. unfold white_in_row. f_equal.
  apply List.filter_ext. intros x.
  apply (is_white_region data data' (first_row h)); [exact Hagree | lia].
Qed.

Lemma detectWaymoHeuristic_region_witness :
  (forall i, (first_row 10 * 1280 <= i)%nat ->
             [Fin 255; Fin 255; Fin 255] !! i = [Fin 0; Fin 0; Fin 0] !! i) /\
  detectWaymoHeuristic 10 [Fin 255; Fin 255; Fin 255]
    = detectWaymoHeuristic 10 [Fin 0; Fin 0; Fin 0].
Proof.
  assert (H : forall i, (first_row 10 * 1280 <= i)%nat ->
              [Fin 255; Fin 255; Fin 255] !! i = [Fin 0; Fin 0; Fin 0] !! i).
  { unfold first_row.
    replace (Zfloor (INR 10 * 0.4)) with 4%Z
      by (symmetry; apply Zfloor_eq; simpl; lra).
    intros i Hi. rewrite !lookup_ge_None_2 by (simpl in *; lia). reflexivity. }
  split; [exact H |].
  apply detectWaymoHeuristic_region. exact H.
Defined.

(** ** Camera sampling *)



(** X27: with a coverage that is not a number of (0,1] ([NaN], zero, a
    negative number, a number above 1, an infinity) [sampleAllCameras]
    consults no camera and changes nothing: the estimate of the previous
    sampling stays in place. *)
Theorem sampleAllCameras_coverage :
  forall (coverage : number) (outcomes : list (option number)) (w : world),
    ~ (exists c, coverage = Fin c /\ 0 < c <= 1) ->
    sampleAllCameras coverage outcomes w = Some (CoverageInvalid, w).
Proof.
  intros coverage outcomes w Hno. unfold sampleAllCameras, js_gt.
  destruct coverage as [c | | |]; js_simpl; try reflexivity.
  destruct (Req_dec_T c 0) as [E | E].
  - replace (Reqb c 0) with true by (symmetry; now apply Reqb_true). reflexivity.
  - replace (Reqb c 0) with false by (symmetry; now apply Reqb_false).
    destruct (Rle_dec c 0) as [E1 | E1].
    + replace (Rleb c 0) with true by (symmetry; now apply Rleb_true). reflexivity.
    + replace (Rleb c 0) with false by (symmetry; apply Rleb_false; lra).
      destruct (Rlt_dec 1 c) as [E2 | E2].
      * replace (Rltb 1 c) with true by (symmetry; now apply Rltb_true). reflexivity.
      * exfalso. apply Hno. exists c. split; [reflexivity | lra].
Qed.

Lemma sampleAllCameras_coverage_witness :
  ~ (exists c, Fin 1.5 = Fin c /\ 0 < c <= 1) /\
  sampleAllCameras (Fin 1.5) [Some (Fin 2)] (World [] 0 (Num (Fin 40)))
    = Some (CoverageInvalid, World [] 0 (Num (Fin 40))).
Proof.
  assert (H : ~ (exists c, Fin 1.5 = Fin c /\ 0 < c <= 1)).
  { intros (c & Hc & Hr). inversion Hc. lra. }
  split; [exact H |]. apply sampleAllCameras_coverage. exact H.
Defined.






(** ** Runs on point ranges *)


